(** * embed: Go source embedding of binary files

    A shallow embedding of [embed.go]: the identifier sanitiser
    ([sanitise]), the stream encoder ([Embed]) and the writer of the
    package clause ([WritePackage]), together with the
    parts of the Go standard library they call ([unicode/utf8],
    [path/filepath.Base], [io.ReadFull], [io.MultiWriter], [crypto/sha1]
    and the writer interface of [compress/gzip]).

    Go strings and byte slices are [list byte]; runes and machine words
    are [Z].  The predicates [unicode.IsLetter] and [unicode.IsNumber]
    are parameters of the program, the compressor behind [gzip.Writer] is
    an abstract stream transformer, and paths are Unix paths.  Source and
    destination are state machines that can fail; a loop of the program is
    a function with fuel, and [Embed_total] shows that the fuel [Embed]
    takes always suffices. *)

From Stdlib Require Import String Strings.Byte ZArith Arith Bool Lia List.
Import ListNotations.
Local Open Scope Z_scope.

(** ** Bytes *)

Module Bytes.

Definition b2z (b : byte) : Z := Z.of_N (Byte.to_N b).

(** Go's [byte(x)] conversion: truncation to the low eight bits. *)
Definition z2b (z : Z) : byte :=
  match Byte.of_N (Z.to_N (z mod 256)) with
  | Some b => b
  | None => x00
  end.

(** A Go string literal. *)
Definition str (s : string) : list byte := list_byte_of_string s.

Definition NL : list byte := [x0a].
Definition TAB : list byte := [x09].

End Bytes.
Import Bytes.

(** ** crypto/sha1 *)

Module SHA1.

Definition w32 (x : Z) : Z := x mod 4294967296.
Definition add32 (x y : Z) : Z := w32 (x + y).
Definition rotl (n x : Z) : Z :=
  w32 (Z.lor (Z.shiftl x n) (Z.shiftr x (32 - n))).
Definition not32 (x : Z) : Z := 4294967295 - x.

(** Big-endian encoding of the low [n] bytes of [x]. *)
Fixpoint be_bytes (n : nat) (x : Z) : list byte :=
  match n with
  | O => []
  | S m => be_bytes m (Z.shiftr x 8) ++ [z2b x]
  end.

Definition be_word (bs : list byte) : Z :=
  fold_left (fun acc b => Z.lor (Z.shiftl acc 8) (b2z b)) bs 0.

(** Message padding: a one bit, zeros up to 56 mod 64, the bit length. *)
Definition pad (msg : list byte) : list byte :=
  let len := Z.of_nat (length msg) in
  let fill := Z.to_nat ((55 - len) mod 64) in
  msg ++ [x80] ++ repeat x00 fill ++ be_bytes 8 (len * 8).

Fixpoint words (n : nat) (bs : list byte) : list Z :=
  match n with
  | O => []
  | S m => be_word (firstn 4 bs) :: words m (skipn 4 bs)
  end.

(** The message schedule, most recent word first. *)
Fixpoint schedule (n : nat) (rev_w : list Z) : list Z :=
  match n with
  | O => rev_w
  | S m =>
    let w := rotl 1 (Z.lxor (Z.lxor (nth 2 rev_w 0) (nth 7 rev_w 0))
                            (Z.lxor (nth 13 rev_w 0) (nth 15 rev_w 0))) in
    schedule m (w :: rev_w)
  end.

Definition round_f (t : nat) (b c d : Z) : Z :=
  if (t <? 20)%nat then Z.lor (Z.land b c) (Z.land (not32 b) d)
  else if (t <? 40)%nat then Z.lxor (Z.lxor b c) d
  else if (t <? 60)%nat then
    Z.lor (Z.lor (Z.land b c) (Z.land b d)) (Z.land c d)
  else Z.lxor (Z.lxor b c) d.

Definition round_k (t : nat) : Z :=
  if (t <? 20)%nat then 0x5A827999
  else if (t <? 40)%nat then 0x6ED9EBA1
  else if (t <? 60)%nat then 0x8F1BBCDC
  else 0xCA62C1D6.

Definition state : Type := Z * Z * Z * Z * Z.

Fixpoint rounds (t : nat) (ws : list Z) (s : state) : state :=
  match ws with
  | [] => s
  | w :: ws' =>
    let '(a, b, c, d, e) := s in
    let tmp := add32 (add32 (add32 (add32 (rotl 5 a) (round_f t b c d)) e) w)
                     (round_k t) in
    rounds (S t) ws' (tmp, a, rotl 30 b, c, d)
  end.

Definition block (s : state) (blk : list byte) : state :=
  let ws := rev (schedule 64 (rev (words 16 blk))) in
  let '(a, b, c, d, e) := s in
  let '(a', b', c', d', e') := rounds 0 ws s in
  (add32 a a', add32 b b', add32 c c', add32 d d', add32 e e').

Fixpoint blocks (n : nat) (s : state) (bs : list byte) : state :=
  match n with
  | O => s
  | S m => blocks m (block s (firstn 64 bs)) (skipn 64 bs)
  end.

Definition init : state :=
  (0x67452301, 0xEFCDAB89, 0x98BADCFE, 0x10325476, 0xC3D2E1F0).

(** [sha1.Sum]: the twenty-byte digest of [msg]. *)
Definition Sum (msg : list byte) : list byte :=
  let p := pad msg in
  let '(a, b, c, d, e) := blocks (length p / 64)%nat init p in
  be_bytes 4 a ++ be_bytes 4 b ++ be_bytes 4 c ++ be_bytes 4 d ++ be_bytes 4 e.

End SHA1.

(** ** unicode/utf8 *)

Module utf8.

Definition RuneError : Z := 0xFFFD.
Definition RuneSelf : Z := 0x80.
Definition MaxRune : Z := 0x10FFFF.
Definition surrogateMin : Z := 0xD800.
Definition surrogateMax : Z := 0xDFFF.

Definition tx : Z := 0x80.
Definition t2 : Z := 0xC0.
Definition t3 : Z := 0xE0.
Definition t4 : Z := 0xF0.
Definition maskx : Z := 0x3F.
Definition mask2 : Z := 0x1F.
Definition mask3 : Z := 0x0F.
Definition mask4 : Z := 0x07.
Definition rune2Max : Z := 0x7FF.
Definition rune3Max : Z := 0xFFFF.
Definition locb : Z := 0x80.
Definition hicb : Z := 0xBF.

(** Entries of the [first] table: the high nibble indexes
    [acceptRanges], the low three bits give the sequence length. *)
Definition xx : Z := 0xF1.
Definition as_ : Z := 0xF0.
Definition s1 : Z := 0x02.
Definition s2 : Z := 0x13.
Definition s3 : Z := 0x03.
Definition s4 : Z := 0x23.
Definition s5 : Z := 0x34.
Definition s6 : Z := 0x04.
Definition s7 : Z := 0x44.

Definition first (b : Z) : Z :=
  if b <? 0x80 then as_
  else if b <? 0xC2 then xx
  else if b <? 0xE0 then s1
  else if b =? 0xE0 then s2
  else if b <? 0xED then s3
  else if b =? 0xED then s4
  else if b <? 0xF0 then s3
  else if b =? 0xF0 then s5
  else if b <? 0xF4 then s6
  else if b =? 0xF4 then s7
  else xx.

Definition acceptRanges (i : Z) : Z * Z :=
  match i with
  | 0 => (locb, hicb)
  | 1 => (0xA0, hicb)
  | 2 => (locb, 0x9F)
  | 3 => (0x90, hicb)
  | 4 => (locb, 0x8F)
  | _ => (0, 0)
  end.

(** [s[i]] on a string known to be long enough. *)
Definition at_ (s : list byte) (i : nat) : Z := b2z (nth i s x00).

(** [utf8.DecodeRuneInString]: the first rune of [s] and its width in
    bytes; [(RuneError, 0)] on the empty string and [(RuneError, 1)] on
    an invalid encoding. *)
Definition DecodeRuneInString (s : list byte) : Z * nat :=
  let n := length s in
  if (n <? 1)%nat then (RuneError, O)
  else
    let c0 := at_ s 0 in
    let x := first c0 in
    if as_ <=? x then ((if x =? xx then RuneError else c0), 1%nat)
    else
      let sz := Z.to_nat (Z.land x 7) in
      let '(lo, hi) := acceptRanges (Z.shiftr x 4) in
      if (n <? sz)%nat then (RuneError, 1%nat)
      else
        let c1 := at_ s 1 in
        if (c1 <? lo) || (hi <? c1) then (RuneError, 1%nat)
        else if (sz <=? 2)%nat then
          (Z.lor (Z.shiftl (Z.land c0 mask2) 6) (Z.land c1 maskx), 2%nat)
        else
          let c2 := at_ s 2 in
          if (c2 <? locb) || (hicb <? c2) then (RuneError, 1%nat)
          else if (sz <=? 3)%nat then
            (Z.lor (Z.lor (Z.shiftl (Z.land c0 mask3) 12)
                          (Z.shiftl (Z.land c1 maskx) 6))
                   (Z.land c2 maskx), 3%nat)
          else
            let c3 := at_ s 3 in
            if (c3 <? locb) || (hicb <? c3) then (RuneError, 1%nat)
            else
              (Z.lor (Z.lor (Z.lor (Z.shiftl (Z.land c0 mask4) 18)
                                   (Z.shiftl (Z.land c1 maskx) 12))
                            (Z.shiftl (Z.land c2 maskx) 6))
                     (Z.land c3 maskx), 4%nat).

(** [utf8.AppendRune] onto the empty slice. *)
Definition EncodeRune (r : Z) : list byte :=
  if (0 <=? r) && (r <? RuneSelf) then [z2b r]
  else if (0 <=? r) && (r <=? rune2Max) then
    [z2b (Z.lor t2 (Z.shiftr r 6)); z2b (Z.lor tx (Z.land r maskx))]
  else
    let r := if (r <? 0) || (MaxRune <? r)
                || ((surrogateMin <=? r) && (r <=? surrogateMax))
             then RuneError else r in
    if r <=? rune3Max then
      [z2b (Z.lor t3 (Z.shiftr r 12));
       z2b (Z.lor tx (Z.land (Z.shiftr r 6) maskx));
       z2b (Z.lor tx (Z.land r maskx))]
    else
      [z2b (Z.lor t4 (Z.shiftr r 18));
       z2b (Z.lor tx (Z.land (Z.shiftr r 12) maskx));
       z2b (Z.lor tx (Z.land (Z.shiftr r 6) maskx));
       z2b (Z.lor tx (Z.land r maskx))].

(** The code points of a string, as [[]rune(s)] lists them: every
    invalid byte counts as one [RuneError].  [None] when [fuel] is too
    small. *)
Fixpoint runes_fuel (fuel : nat) (s : list byte) : option (list Z) :=
  match s with
  | [] => Some []
  | _ :: _ =>
    match fuel with
    | O => None
    | S fuel' =>
      let '(r, n) := DecodeRuneInString s in
      option_map (cons r) (runes_fuel fuel' (skipn n s))
    end
  end.

Definition runes (s : list byte) : list Z :=
  match runes_fuel (length s) s with
  | Some rs => rs
  | None => []
  end.

End utf8.

(** ** path/filepath (Unix) *)

Module filepath.

Definition Separator : byte := "/"%byte.
Definition IsPathSeparator (c : byte) : bool := Byte.eqb c Separator.

(** Length of [path[0:n]] once trailing separators are dropped. *)
Fixpoint strip_trailing (n : nat) (path : list byte) : nat :=
  match n with
  | O => O
  | S m => if IsPathSeparator (nth m path x00)
           then strip_trailing m path else n
  end.

(** The index after the last separator within [path[0:n]], if any. *)
Fixpoint after_last_separator (n : nat) (path : list byte) : option nat :=
  match n with
  | O => None
  | S m => if IsPathSeparator (nth m path x00)
           then Some n else after_last_separator m path
  end.

(** [filepath.Base]: the last element of [path]; the volume name is
    empty on Unix. *)
Definition Base (path : list byte) : list byte :=
  match path with
  | [] => str "."
  | _ =>
    let path := firstn (strip_trailing (length path) path) path in
    let path := match after_last_separator (length path) path with
                | Some i => skipn i path
                | None => path
                end in
    match path with
    | [] => [Separator]
    | _ => path
    end
  end.

End filepath.

(** ** unicode *)

Module unicode.

(** The Latin-1 rows of the [properties] table behind
    [unicode.IsLetter] and [unicode.IsNumber].  The range tables for code
    points above U+00FF are not part of this development: the program is
    verified for arbitrary predicates, and these two are the instance on
    which concrete names within Latin-1 are evaluated.  Beyond U+00FF they
    answer [false], which is not Go's answer for the letters and numbers
    there; no theorem evaluates them on such a code point. *)
Definition IsLetter (r : Z) : bool :=
  ((0x41 <=? r) && (r <=? 0x5A)) || ((0x61 <=? r) && (r <=? 0x7A))
  || (r =? 0xAA) || (r =? 0xB5) || (r =? 0xBA)
  || ((0xC0 <=? r) && (r <=? 0xD6)) || ((0xD8 <=? r) && (r <=? 0xF6))
  || ((0xF8 <=? r) && (r <=? 0xFF)).

Definition IsNumber (r : Z) : bool :=
  ((0x30 <=? r) && (r <=? 0x39))
  || (r =? 0xB2) || (r =? 0xB3) || (r =? 0xB9)
  || ((0xBC <=? r) && (r <=? 0xBE)).

(** [unicode.IsDigit] (category Nd), the digits of a Go identifier.  The
    program does not call it.  Up to U+00FF Go decides it by the
    comparison ['0' <= r && r <= '9']; as for the two predicates above,
    the range table for the code points beyond is not included. *)
Definition IsDigit (r : Z) : bool := (0x30 <=? r) && (r <=? 0x39).

End unicode.

(** ** sanitise *)

Section Sanitise.

Variables IsLetter IsNumber : Z -> bool.

(** [bytes.Buffer] is the list of bytes written so far. *)
Definition WriteRune (buf : list byte) (r : Z) : list byte :=
  buf ++ utf8.EncodeRune r.
Definition WriteByte (buf : list byte) (c : byte) : list byte :=
  buf ++ [c].

(** The loop of [sanitise].  Every iteration drops at least one byte of
    [name]; [None] when [fuel] iterations do not exhaust it. *)
Fixpoint sanitise_loop (fuel : nat) (name : list byte) (first : bool)
    (buf : list byte) : option (list byte) :=
  match name with
  | [] => Some buf
  | _ :: _ =>
    match fuel with
    | O => None
    | S fuel' =>
      let '(r, n) := utf8.DecodeRuneInString name in
      if IsLetter r || (negb first && IsNumber r)
      then sanitise_loop fuel' (skipn n name) false (WriteRune buf r)
      else sanitise_loop fuel' (skipn n name) first (WriteByte buf "_"%byte)
    end
  end.

Definition sanitise (name : list byte) : option (list byte) :=
  let name := filepath.Base name in
  match sanitise_loop (length name) name true [] with
  | Some buf =>
    Some (if (length buf =? 0)%nat then WriteByte buf "_"%byte else buf)
  | None => None
  end.

End Sanitise.

(** ** Errors, readers and writers *)

Local Open Scope nat_scope.

Inductive error : Type :=
| EOF
| ErrUnexpectedEOF
| ErrShortWrite
| ErrShortBuffer
| ErrInvalidLevel
| Err (code : nat).

Definition error_eqb (a b : error) : bool :=
  match a, b with
  | EOF, EOF | ErrUnexpectedEOF, ErrUnexpectedEOF
  | ErrShortWrite, ErrShortWrite | ErrShortBuffer, ErrShortBuffer
  | ErrInvalidLevel, ErrInvalidLevel => true
  | Err m, Err n => (m =? n)%nat
  | _, _ => false
  end.

(** A Go [error] value; [None] is [nil]. *)
Definition is_nil (e : option error) : bool :=
  match e with None => true | Some _ => false end.

Definition is_err (e : option error) (x : error) : bool :=
  match e with Some y => error_eqb y x | None => false end.

(** The source: the bytes still to come, the error reported once they
    are exhausted, and the largest number of bytes ([S grain]) a single
    [Read] hands out.  A [Read] yields at least one byte while bytes are
    pending. *)
Record Reader : Type := mkReader {
  pending : list byte;
  at_end : error;
  grain : nat
}.

(** The sink: one entry of [log] per [Write] call holding the bytes it
    accepted; [room] bounds the bytes still accepted ([None]: no bound),
    and a write that exceeds it keeps the part that fits and fails with
    [full]. *)
Record Sink : Type := mkSink {
  log : list (list byte);
  room : option nat;
  full : error
}.

Definition contents (s : Sink) : list byte := concat (log s).

(** The interface of a streaming compressor: [gz_step] absorbs a write
    and yields the bytes it passes downstream, [gz_fin] yields what
    closing still emits. *)
Record Compressor : Type := mkCompressor {
  gz_state : Type;
  gz_init : gz_state;
  gz_step : gz_state -> list byte -> gz_state * list byte;
  gz_fin : gz_state -> list byte
}.

(** A [gzip.Writer].  [z_absorbed] (the bytes written into it) and
    [z_closes] (the number of [Close] calls) are bookkeeping. *)
Record GzWriter (C : Compressor) : Type := mkGzWriter {
  z_state : gz_state C;
  z_err : option error;
  z_closed : bool;
  z_absorbed : list byte;
  z_closes : nat
}.
Arguments mkGzWriter {C}.
Arguments z_state {C}.
Arguments z_err {C}.
Arguments z_closed {C}.
Arguments z_absorbed {C}.
Arguments z_closes {C}.

(** Everything [Embed] reads or mutates: the source, the destination,
    the gzip writer and the message absorbed by the SHA1 digest. *)
Record World (C : Compressor) : Type := mkWorld {
  w_src : Reader;
  w_dst : Sink;
  w_gz : GzWriter C;
  w_sha1 : list byte
}.
Arguments mkWorld {C}.
Arguments w_src {C}.
Arguments w_dst {C}.
Arguments w_gz {C}.
Arguments w_sha1 {C}.

(** The command-line flags [-gzip] and [-sha1]. *)
Record Flags : Type := mkFlags {
  compress : bool;
  sha : bool
}.

(** ** The state monad of the encoder

    [None] stands for a loop that ran out of fuel. *)

Definition M (C : Compressor) (A : Type) : Type :=
  World C -> option (A * World C).

Definition ret {C A} (a : A) : M C A := fun w => Some (a, w).

Definition bind {C A B} (m : M C A) (f : A -> M C B) : M C B :=
  fun w => match m w with
           | Some (a, w') => f a w'
           | None => None
           end.

Definition lift {C A} (o : option A) : M C A :=
  fun w => match o with Some a => Some (a, w) | None => None end.

Declare Scope embed_scope.
Delimit Scope embed_scope with embed.
Notation "x <- m ;; k" := (bind m (fun x => k))
  (at level 61, m at next level, right associativity) : embed_scope.
Local Open Scope embed_scope.

(** ** io *)

Module io.

(** [src.Read(p)] with [len(p) = k]. *)
Definition Read (r : Reader) (k : nat) : list byte * option error * Reader :=
  match pending r with
  | [] => ([], Some (at_end r), r)
  | _ :: _ =>
    let m := Nat.min k (S (grain r)) in
    (firstn m (pending r), None,
     mkReader (skipn m (pending r)) (at_end r) (grain r))
  end.

(** The loop of [io.ReadAtLeast]: read until [min] bytes are in or an
    error shows up. *)
Fixpoint ReadAtLeast_loop (fuel size min : nat) (got : list byte)
    (err : option error) (r : Reader)
    : option (list byte * option error * Reader) :=
  if (length got <? min)%nat && is_nil err then
    match fuel with
    | O => None
    | S fuel' =>
      let '(bs, e, r') := Read r (size - length got) in
      ReadAtLeast_loop fuel' size min (got ++ bs) e r'
    end
  else Some (got, err, r).

Definition ReadAtLeast (r : Reader) (size min : nat)
    : option (list byte * option error * Reader) :=
  if (size <? min)%nat then Some ([], Some ErrShortBuffer, r)
  else
    match ReadAtLeast_loop min size min [] None r with
    | None => None
    | Some (got, err, r') =>
      let err := if (min <=? length got)%nat then None
                 else if (0 <? length got)%nat && is_err err EOF
                      then Some ErrUnexpectedEOF
                      else err in
      Some (got, err, r')
    end.

(** [io.ReadFull(src, buf)] with [len(buf) = size]: the bytes stored in
    [buf[0:n]] and the error. *)
Definition ReadFull {C} (size : nat) : M C (list byte * option error) :=
  fun w =>
    match ReadAtLeast (w_src w) size size with
    | None => None
    | Some (got, err, r') =>
      Some ((got, err), mkWorld r' (w_dst w) (w_gz w) (w_sha1 w))
    end.

(** [Write] on the destination file. *)
Definition sink_Write (s : Sink) (p : list byte) : nat * option error * Sink :=
  match room s with
  | None => (length p, None, mkSink (log s ++ [p]) None (full s))
  | Some k =>
    if (length p <=? k)%nat
    then (length p, None, mkSink (log s ++ [p]) (Some (k - length p)) (full s))
    else (k, Some (full s), mkSink (log s ++ [firstn k p]) (Some O) (full s))
  end.

End io.

(** ** compress/gzip *)

Module gzip.

Definition HuffmanOnly : Z := (-2)%Z.
Definition BestCompression : Z := 9%Z.

(** [gzip.NewWriterLevel] rejects levels outside
    [HuffmanOnly .. BestCompression]. *)
Definition NewWriterLevel (level : Z) : option error :=
  if (level <? HuffmanOnly)%Z || (BestCompression <? level)%Z
  then Some ErrInvalidLevel else None.

(** [Write] of [gzip.Writer]: a writer that has failed keeps failing with
    the same error. *)
Definition Write {C} (p : list byte) : M C (nat * option error) :=
  fun w =>
    let z := w_gz w in
    match z_err z with
    | Some e => Some ((O, Some e), w)
    | None =>
      let '(st, out) := gz_step C (z_state z) p in
      let '(_, e, dst) :=
        match out with
        | [] => (O, None, w_dst w)
        | _ :: _ => io.sink_Write (w_dst w) out
        end in
      Some (((if is_nil e then length p else O), e),
            mkWorld (w_src w) dst
                    (mkGzWriter st e (z_closed z) (z_absorbed z ++ p)
                                (z_closes z))
                    (w_sha1 w))
    end.

(** [Close] of [gzip.Writer]: flushes what is buffered and the trailer
    into the destination; does not close the destination. *)
Definition Close {C} : M C (option error) :=
  fun w =>
    let z := w_gz w in
    let n := S (z_closes z) in
    match z_err z with
    | Some e =>
      Some (Some e,
            mkWorld (w_src w) (w_dst w)
                    (mkGzWriter (z_state z) (z_err z) (z_closed z)
                                (z_absorbed z) n)
                    (w_sha1 w))
    | None =>
      if z_closed z then
        Some (None,
              mkWorld (w_src w) (w_dst w)
                      (mkGzWriter (z_state z) None true (z_absorbed z) n)
                      (w_sha1 w))
      else
        let '(_, e, dst) := io.sink_Write (w_dst w) (gz_fin C (z_state z)) in
        Some (e,
              mkWorld (w_src w) dst
                      (mkGzWriter (z_state z) e true (z_absorbed z) n)
                      (w_sha1 w))
    end.

End gzip.

(** ** Embed *)

(** The value of [dst] inside [Embed]: the destination file, the gzip
    writer around it, or [io.MultiWriter(w, hasher)]. *)
Inductive Writer : Type :=
| File
| Gzip
| MultiWriter (w : Writer).

Fixpoint Write {C} (dst : Writer) (p : list byte) : M C (nat * option error) :=
  match dst with
  | File =>
    fun w =>
      let '(n, e, s) := io.sink_Write (w_dst w) p in
      Some ((n, e), mkWorld (w_src w) s (w_gz w) (w_sha1 w))
  | Gzip => gzip.Write p
  | MultiWriter d =>
    r <- Write d p ;;
    let '(n, err) := r in
    if negb (is_nil err) then ret (n, err)
    else if negb (n =? length p)%nat then ret (n, Some ErrShortWrite)
    else
      fun w =>
        Some ((length p, None),
              mkWorld (w_src w) (w_dst w) (w_gz w) (w_sha1 w ++ p))
  end.

(** [fmt.Fprintf(dst, ...)], the formatted text being [text]; the byte
    count is dropped as [Embed] drops it. *)
Definition Fprintf {C} (dst : Writer) (text : list byte) : M C (option error) :=
  r <- Write dst text ;; ret (snd r).

Definition BUF_SIZE : nat := 12.

Definition hexdigit (d : Z) : byte :=
  nth (Z.to_nat d) (str "0123456789abcdef") x00.

(** The verb [%02x] on a byte. *)
Definition fmt_02x (b : byte) : list byte :=
  [hexdigit (Z.shiftr (b2z b) 4%Z); hexdigit (Z.land (b2z b) 15%Z)].

(** One line of a byte-array literal: the entries [0x%02x, ] of the
    bytes, without the last character of their concatenation. *)
Definition hex_line (chunk : list byte) : list byte :=
  let data := flat_map (fun b => str "0x" ++ fmt_02x b ++ str ", ") chunk in
  TAB ++ firstn (length data - 1) data ++ NL.

Definition data_header (name sanitised : list byte) : list byte :=
  NL ++ str "// " ++ name ++ NL ++ str "var " ++ sanitised
     ++ str " = []byte{" ++ NL.

Definition hash_header (name sanitised : list byte) : list byte :=
  NL ++ str "// SHA1 hash of " ++ name ++ NL ++ str "var " ++ sanitised
     ++ str "_SHA1 = []byte{" ++ NL.

Definition footer : list byte := str "}" ++ NL.

(** The read loop.  [Some e]: [Embed] returns [e] from inside the loop;
    [None]: the loop was left by [break]. *)
Fixpoint read_loop {C} (fuel : nat) (dst : Writer) : M C (option error) :=
  match fuel with
  | O => fun _ => None
  | S fuel' =>
    r <- io.ReadFull BUF_SIZE ;;
    let '(buf, err) := r in
    if negb (is_nil err) && negb (is_err err EOF)
       && negb (is_err err ErrUnexpectedEOF)
    then ret err
    else if (length buf =? 0)%nat then ret None
    else
      err <- Fprintf dst (hex_line buf) ;;
      if negb (is_nil err) then ret err
      else if negb (length buf =? BUF_SIZE)%nat then ret None
      else read_loop fuel' dst
  end.

(** The loop over the digest. *)
Fixpoint sum_loop {C} (fuel : nat) (dst : Writer) (sum : list byte)
    : M C (option error) :=
  match sum with
  | [] => ret None
  | _ :: _ =>
    match fuel with
    | O => fun _ => None
    | S fuel' =>
      let n := length sum in
      let n := if (BUF_SIZE <? n)%nat then BUF_SIZE else n in
      err <- Fprintf dst (hex_line (firstn n sum)) ;;
      if negb (is_nil err) then ret err
      else sum_loop fuel' dst (skipn n sum)
    end
  end.

Section Embed.

Variables IsLetter IsNumber : Z -> bool.
Variable C : Compressor.
Variable flags : Flags.

(** [Embed] from the creation of the hasher on; [dst] is the file or
    the gzip writer.  The read loop gets one unit of fuel more than there
    are bytes pending. *)
Definition Embed_main (dst : Writer) (name : list byte) : M C (option error) :=
  let hasher := sha flags in
  let dst := if sha flags then MultiWriter dst else dst in
  sanitised <- lift (sanitise IsLetter IsNumber name) ;;
  err <- Fprintf dst (data_header name sanitised) ;;
  if negb (is_nil err) then ret err
  else
    fuel <- (fun w => Some (S (length (pending (w_src w))), w)) ;;
    err <- read_loop fuel dst ;;
    if negb (is_nil err) then ret err
    else
      err <- Fprintf dst footer ;;
      if negb (is_nil err) then ret err
      else if hasher then
        sum <- (fun w => Some (SHA1.Sum (w_sha1 w), w)) ;;
        err <- Fprintf dst (hash_header name sanitised) ;;
        if negb (is_nil err) then ret err
        else
          err <- sum_loop (length sum) dst sum ;;
          if negb (is_nil err) then ret err
          else Fprintf dst footer
      else ret err.

(** [Embed(dst, src, name)]: the deferred function closes the gzip
    writer and replaces a nil result by the error of closing. *)
Definition Embed (name : list byte) : M C (option error) :=
  if compress flags then
    match gzip.NewWriterLevel gzip.BestCompression with
    | Some e => ret (Some e)
    | None =>
      err <- Embed_main Gzip name ;;
      e <- gzip.Close ;;
      ret (if is_nil err && negb (is_nil e) then e else err)
    end
  else Embed_main File name.

End Embed.

(** [WritePackage(dst)]; [pkg] is the value of the flag [-package]. *)
Definition WritePackage {C} (dst : Writer) (pkg : list byte)
    : M C (option error) :=
  Fprintf dst (str "// MACHINE GENERATED - DO NOT EDIT //" ++ NL ++ NL
                 ++ str "package " ++ pkg ++ NL).

(** The name of the file [main] creates for the input [name] when [-o]
    is not given. *)
Definition output_name (name : list byte) : list byte :=
  filepath.Base name ++ str ".go".

(** The state in which [Embed] starts: a fresh gzip writer and digest. *)
Definition start (C : Compressor) (src : Reader) (dst : Sink) : World C :=
  mkWorld src dst (mkGzWriter (gz_init C) None false [] O) [].

(** A source that hands out [data] in reads of up to twelve bytes and
    then reports [io.EOF]. *)
Definition plain (data : list byte) : Reader := mkReader data EOF 11.

(** An empty destination file that accepts everything. *)
Definition file : Sink := mkSink [] None (Err 28).

(** A compressor with the output pattern of a gzip writer: the first
    write emits the two magic bytes of the header, the data is kept until
    the writer is closed, and closing emits it (after the header, if
    nothing was written before).  It stands in for gzip where a run needs
    a concrete compressor. *)
Definition buffering : Compressor :=
  mkCompressor (bool * list byte) (false, [])
    (fun st p => ((true, snd st ++ p), if fst st then [] else [x1f; x8b]))
    (fun st => (if fst st then [] else [x1f; x8b]) ++ snd st).

(** * Vocabulary of the specification *)

(** ** Code points *)

(** [utf8.ValidRune]: a code point outside the surrogate range. *)
Definition valid_rune (r : Z) : Prop :=
  (0 <= r < utf8.surrogateMin \/ utf8.surrogateMax < r <= utf8.MaxRune)%Z.

Definition underscore : Z := 95%Z.

Section Keep.

Variables IsLetter IsNumber : Z -> bool.

(** The rule of the sanitiser as the specification words it, on code
    points: a letter is kept, a number is kept once a letter has been
    accepted, anything else becomes an underscore. *)
Fixpoint spec_keep (accepted : bool) (rs : list Z) : list Z :=
  match rs with
  | [] => []
  | r :: rs' =>
    if IsLetter r then r :: spec_keep true rs'
    else if accepted && IsNumber r then r :: spec_keep accepted rs'
    else underscore :: spec_keep accepted rs'
  end.

End Keep.

(** The syntax of an identifier of Go, on code points: a letter followed
    by letters and digits, the underscore counting as a letter.  Keywords
    have this syntax too. *)
Definition go_identifier (IsLetter IsDigit : Z -> bool) (rs : list Z) : bool :=
  match rs with
  | [] => false
  | r :: rs' =>
    (IsLetter r || (r =? underscore)%Z)
    && forallb (fun c => IsLetter c || IsDigit c || (c =? underscore)%Z) rs'
  end.

Definition starts_with_letter (IsLetter : Z -> bool) (id : list byte) : bool :=
  match utf8.runes id with
  | r :: _ => IsLetter r
  | [] => false
  end.

(** The identifier [sanitise] computes. *)
Definition identifier (IsLetter IsNumber : Z -> bool) (name : list byte)
    : list byte :=
  match sanitise IsLetter IsNumber name with
  | Some id => id
  | None => []
  end.

(** ** States *)

(** What [io.ReadFull] reports on a source holding [p], for a buffer of
    [size] bytes. *)
Definition ReadFull_err (size : nat) (p : list byte) (e : error) : option error :=
  if size <=? length p then None
  else if (0 <? length p) && error_eqb e EOF then Some ErrUnexpectedEOF
  else Some e.

Definition set_pending {C} (q : list byte) (w : World C) : World C :=
  mkWorld (mkReader q (at_end (w_src w)) (grain (w_src w)))
          (w_dst w) (w_gz w) (w_sha1 w).

(** No write can fail: the destination is unbounded and the gzip writer
    has not failed. *)
Definition healthy {C} (w : World C) : Prop :=
  room (w_dst w) = None /\ z_err (w_gz w) = None.

(** The state after writing [p] to [dst]. *)
Definition push {C} (dst : Writer) (p : list byte) (w : World C) : World C :=
  match Write dst p w with
  | Some (_, w') => w'
  | None => w
  end.

Definition push_all {C} (dst : Writer) (ps : list (list byte)) (w : World C)
    : World C :=
  fold_left (fun w p => push dst p w) ps w.

(** The bytes that went through the writer [dst]. *)
Fixpoint text_of {C} (dst : Writer) (w : World C) : list byte :=
  match dst with
  | File => contents (w_dst w)
  | Gzip => z_absorbed (w_gz w)
  | MultiWriter d => text_of d w
  end.

(** [m] returns from [w] and leaves the number of [Close] calls as it
    was. *)
Definition keeps {C A} (m : M C A) (w : World C) : Prop :=
  exists a w', m w = Some (a, w') /\ z_closes (w_gz w') = z_closes (w_gz w).

(** ** Writers *)

(** The digest absorbs what goes through a [MultiWriter] and nothing
    else. *)
Definition hashing (dst : Writer) : bool :=
  match dst with MultiWriter _ => true | _ => false end.

Definition simple (dst : Writer) : Prop :=
  match dst with
  | MultiWriter (MultiWriter _) => False
  | _ => True
  end.

(** Without compression every write is one entry of the log. *)
Definition direct (dst : Writer) : Prop :=
  match dst with
  | File | MultiWriter File => True
  | _ => False
  end.

Definition wrap (flags : Flags) (d : Writer) : Writer :=
  if sha flags then MultiWriter d else d.

(** The writer [Embed] ends up with as [dst]. *)
Definition chain (flags : Flags) : Writer :=
  wrap flags (if compress flags then Gzip else File).

(** ** The generated text *)

(** The first [k] groups of [BUF_SIZE] bytes of [data]. *)
Fixpoint chunks (k : nat) (data : list byte) : list (list byte) :=
  match k with
  | O => []
  | S k' => firstn BUF_SIZE data :: chunks k' (skipn BUF_SIZE data)
  end.

(** Whether the end of the source counts as the end of the data. *)
Definition clean (e : error) : bool :=
  error_eqb e EOF || error_eqb e ErrUnexpectedEOF.

(** The number of lines the read loop writes for [n] bytes of input. *)
Definition lines_for (e : error) (n : nat) : nat :=
  if clean e then (n + 11) / 12 else n / 12.

(** The writes of the data declaration: header, lines, closing brace. *)
Definition data_block (name id : list byte) (p : list byte)
    : list (list byte) :=
  data_header name id
  :: map hex_line (chunks ((length p + 11) / 12) p) ++ [footer].

(** The writes of the digest declaration. *)
Definition hash_block (name id sum : list byte) : list (list byte) :=
  hash_header name id
  :: map hex_line (chunks ((length sum + 11) / 12) sum) ++ [footer].

(** Everything [Embed] writes when nothing fails. *)
Definition output (IsLetter IsNumber : Z -> bool) (flags : Flags)
    (name : list byte) (p : list byte) : list (list byte) :=
  let id := identifier IsLetter IsNumber name in
  let data := data_block name id p in
  data ++ (if sha flags then hash_block name id (SHA1.Sum (concat data))
           else []).

(** What [Embed] writes before a failing source stops it: the header
    and the lines of the full groups. *)
Definition truncated (IsLetter IsNumber : Z -> bool) (name : list byte)
    (p : list byte) : list (list byte) :=
  data_header name (identifier IsLetter IsNumber name)
  :: map hex_line (chunks (length p / 12) p).

(** The writes of [Embed] on a destination that accepts everything, for
    a source holding [p] and ending with [e]. *)
Definition written (IsLetter IsNumber : Z -> bool) (flags : Flags)
    (name : list byte) (e : error) (p : list byte) : list (list byte) :=
  if clean e then output IsLetter IsNumber flags name p
  else truncated IsLetter IsNumber name p.

(** The bytes a compressor passes on while it absorbs the writes [ps]. *)
Fixpoint gz_feed (C : Compressor) (st : gz_state C) (ps : list (list byte))
    : gz_state C * list byte :=
  match ps with
  | [] => (st, [])
  | p :: ps' =>
    let '(st1, out) := gz_step C st p in
    let '(st2, outs) := gz_feed C st1 ps' in
    (st2, out ++ outs)
  end.

(** The compressed stream of the writes [ps]. *)
Definition compressed (C : Compressor) (ps : list (list byte)) : list byte :=
  let '(st, out) := gz_feed C (gz_init C) ps in
  out ++ gz_fin C st.

(** The text [Embed] generates for the input "ABC" named "test.txt",
    up to the closing brace of the data declaration. *)
Definition abc_text : list byte :=
  NL ++ str "// test.txt" ++ NL
     ++ str "var test_txt = []byte{" ++ NL
     ++ TAB ++ str "0x41, 0x42, 0x43," ++ NL
     ++ str "}" ++ NL.

(** ** Reading the text back *)

(** One entry of a line as the file format has it: [0x], two hex
    digits, a comma. *)
Definition hex_entry (b : byte) : list byte :=
  str "0x" ++ fmt_02x b ++ str ",".

(** Entries separated by single spaces. *)
Fixpoint join_entries (es : list (list byte)) : list byte :=
  match es with
  | [] => []
  | [e] => e
  | e :: es' => e ++ str " " ++ join_entries es'
  end.

(** A line of the literal: a tab, the entries, a newline. *)
Definition spec_line (chunk : list byte) : list byte :=
  TAB ++ join_entries (map hex_entry chunk) ++ NL.

(** The value of a lower-case hex digit. *)
Definition hexval (c : byte) : option Z :=
  let z := b2z c in
  if (48 <=? z)%Z && (z <=? 57)%Z then Some (z - 48)%Z
  else if (97 <=? z)%Z && (z <=? 102)%Z then Some (z - 87)%Z
  else None.

(** Reading a literal back: the bytes named by the tokens [0xhh] of
    [text], in order. *)
Fixpoint unhex (text : list byte) : list byte :=
  match text with
  | [] => []
  | c :: rest =>
    match rest with
    | x :: h :: l :: rest' =>
      if Byte.eqb c "0" && Byte.eqb x "x" then
        match hexval h, hexval l with
        | Some a, Some b => z2b (16 * a + b) :: unhex rest'
        | _, _ => unhex rest
        end
      else unhex rest
    | _ => unhex rest
    end
  end.

(** The number of byte entries on a line. *)
Definition entries (line : list byte) : nat := length (unhex line).

(** The lines of a text, split at the newlines. *)
Fixpoint lines_from (cur : list byte) (text : list byte) : list (list byte) :=
  match text with
  | [] => match cur with [] => [] | _ => [cur] end
  | c :: rest =>
    if Byte.eqb c x0a then cur :: lines_from [] rest
    else lines_from (cur ++ [c]) rest
  end.

Definition lines (text : list byte) : list (list byte) := lines_from [] text.

(** A line without its indentation. *)
Definition content (line : list byte) : list byte :=
  match line with
  | c :: t => if Byte.eqb c x09 then t else line
  | [] => []
  end.

(** ** Paths *)

(** No byte of [s] is a path separator. *)
Definition no_separator (s : list byte) : bool :=
  forallb (fun b => negb (filepath.IsPathSeparator b)) s.

(** ** Writes that can fail *)

Definition with_src {C} (r : Reader) (w : World C) : World C :=
  mkWorld r (w_dst w) (w_gz w) (w_sha1 w).

(** Two states that differ in the source at most. *)
Definition same_out {C} (w1 w2 : World C) : Prop :=
  w_dst w1 = w_dst w2 /\ w_gz w1 = w_gz w2 /\ w_sha1 w1 = w_sha1 w2.

(** The writes [ps] through [dst] up to the first one that fails: its
    error, if any, and the state reached. *)
Fixpoint feed {C} (dst : Writer) (ps : list (list byte)) (w : World C)
    : option error * World C :=
  match ps with
  | [] => (None, w)
  | p :: ps' =>
    match Fprintf dst p w with
    | Some (None, w') => feed dst ps' w'
    | Some (Some e, w') => (Some e, w')
    | None => (None, w)
    end
  end.

(** The error of the first failing write, or [ok] when none fails. *)
Definition outcome {C} (F : option error * World C) (ok : option error)
    : option error :=
  match fst F with Some x => Some x | None => ok end.

(** [m] run in [w] returns like the writes [ps] made in [wf], with [ok]
    when they all succeed, and leaves what they leave. *)
Definition does {C} (dst : Writer) (m : M C (option error))
    (ps : list (list byte)) (ok : option error) (w wf : World C) : Prop :=
  exists w', m w = Some (outcome (feed dst ps wf) ok, w')
             /\ same_out w' (snd (feed dst ps wf)).

(** Whether [n] more bytes fit into the destination. *)
Definition fits (s : Sink) (n : nat) : bool :=
  match room s with None => true | Some k => n <=? k end.

(** The part of [text] the destination takes. *)
Definition taken (s : Sink) (text : list byte) : list byte :=
  match room s with None => text | Some k => firstn k text end.

(** What [Embed] appends to a file that accepts everything. *)
Definition appended (IsLetter IsNumber : Z -> bool) (C : Compressor)
    (flags : Flags) (name : list byte) (e : error) (data : list byte)
    : list byte :=
  if compress flags
  then compressed C (written IsLetter IsNumber flags name e data)
  else concat (written IsLetter IsNumber flags name e data).

(** * Proofs *)

Local Open Scope Z_scope.

(** ** Bytes and integers *)

Lemma b2z_range (b : byte) : 0 <= b2z b < 256.
Proof.
  unfold b2z. pose proof (Byte.to_N_bounded b) as H.
  apply N2Z.inj_le in H. simpl in H. lia.
Qed.

Lemma z2b_b2z (b : byte) : z2b (b2z b) = b.
Proof.
  unfold z2b. pose proof (b2z_range b) as H.
  rewrite Z.mod_small by lia. unfold b2z.
  rewrite N2Z.id, Byte.of_to_N. reflexivity.
Qed.

Lemma b2z_z2b (z : Z) : 0 <= z < 256 -> b2z (z2b z) = z.
Proof.
  intros H. unfold z2b, b2z. rewrite Z.mod_small by lia.
  destruct (Byte.of_N (Z.to_N z)) as [b|] eqn:E.
  - apply Byte.to_of_N in E. rewrite E. lia.
  - apply Byte.of_N_None_iff in E. lia.
Qed.

Lemma b2z_inj (a b : byte) : b2z a = b2z b -> a = b.
Proof. intros H. rewrite <- (z2b_b2z a), <- (z2b_b2z b), H. reflexivity. Qed.

(** ** The library models on known values *)

(** The digests of the empty message, of "abc" and of a message of two
    blocks, as FIPS 180 lists them. *)
Lemma SHA1_test_vectors :
  SHA1.Sum []
  = [xda; x39; xa3; xee; x5e; x6b; x4b; x0d; x32; x55;
     xbf; xef; x95; x60; x18; x90; xaf; xd8; x07; x09]
  /\ SHA1.Sum (str "abc")
     = [xa9; x99; x3e; x36; x47; x06; x81; x6a; xba; x3e;
        x25; x71; x78; x50; xc2; x6c; x9c; xd0; xd8; x9d]
  /\ SHA1.Sum (str "abcdbcdecdefdefgefghfghighijhijkijkljklmklmnlmnomnopnopq")
     = [x84; x98; x3e; x44; x1c; x3b; xd2; x6e; xba; xae;
        x4a; xa1; xf9; x51; x29; xe5; xe5; x46; x70; xf1].
Proof. repeat split; vm_compute; reflexivity. Qed.

(** Two, three and four byte sequences, a stray continuation byte, an
    overlong form and an encoded surrogate. *)
Lemma utf8_examples :
  utf8.runes [xc3; xa9; x41; xe2; x82; xac; xf0; x9f; x98; x80]
  = [0xE9; 0x41; 0x20AC; 0x1F600]
  /\ utf8.runes [x80; xc0; x80; xed; xa0; x80]
     = [0xFFFD; 0xFFFD; 0xFFFD; 0xFFFD; 0xFFFD; 0xFFFD]
  /\ map utf8.EncodeRune [0xE9; 0x20AC; 0x1F600; 0xD800]
     = [[xc3; xa9]; [xe2; x82; xac]; [xf0; x9f; x98; x80]; [xef; xbf; xbd]].
Proof. repeat split; vm_compute; reflexivity. Qed.

Lemma Base_examples :
  filepath.Base (str "a/b/test.txt//") = str "test.txt"
  /\ filepath.Base (str "///") = str "/"
  /\ filepath.Base (str "/abc") = str "abc"
  /\ filepath.Base (str "abc") = str "abc".
Proof. repeat split; vm_compute; reflexivity. Qed.

(** ** Bit operations as arithmetic *)

Lemma land_low_high (a b n : Z) :
  0 <= n -> 0 <= b < 2 ^ n -> Z.land (a * 2 ^ n) b = 0.
Proof.
  intros Hn Hb. apply Z.bits_inj'. intros m Hm.
  rewrite Z.land_spec, Z.bits_0.
  destruct (Z.lt_ge_cases m n) as [Hlt|Hge].
  - rewrite Z.mul_pow2_bits_low by lia. reflexivity.
  - destruct (Z.eq_dec b 0) as [->|Hb0].
    + rewrite Z.bits_0. apply andb_false_r.
    + rewrite (Z.bits_above_log2 b m); [apply andb_false_r | lia |].
      apply Z.log2_lt_pow2; [lia|].
      apply Z.lt_le_trans with (2 ^ n); [lia|].
      apply Z.pow_le_mono_r; lia.
Qed.

Lemma lor_high_low (a b n : Z) :
  0 <= n -> 0 <= b < 2 ^ n -> Z.lor (a * 2 ^ n) b = a * 2 ^ n + b.
Proof.
  intros Hn Hb. pose proof (land_low_high a b n Hn Hb) as H.
  rewrite <- Z.lxor_lor by exact H.
  symmetry. apply Z.add_nocarry_lxor. exact H.
Qed.

Lemma shiftl_lor (a b n : Z) :
  0 <= n -> 0 <= b < 2 ^ n -> Z.lor (Z.shiftl a n) b = a * 2 ^ n + b.
Proof. intros. rewrite Z.shiftl_mul_pow2 by lia. apply lor_high_low; lia. Qed.

Module utf8_facts.
Import utf8.

Lemma land_maskx c : 0 <= c -> Z.land c maskx = c mod 64.
Proof. intros. change maskx with (Z.ones 6). rewrite Z.land_ones by lia. reflexivity. Qed.
Lemma land_mask2 c : 0 <= c -> Z.land c mask2 = c mod 32.
Proof. intros. change mask2 with (Z.ones 5). rewrite Z.land_ones by lia. reflexivity. Qed.
Lemma land_mask3 c : 0 <= c -> Z.land c mask3 = c mod 16.
Proof. intros. change mask3 with (Z.ones 4). rewrite Z.land_ones by lia. reflexivity. Qed.
Lemma land_mask4 c : 0 <= c -> Z.land c mask4 = c mod 8.
Proof. intros. change mask4 with (Z.ones 3). rewrite Z.land_ones by lia. reflexivity. Qed.

Lemma join2 a b : 0 <= b < 64 ->
  Z.lor (Z.shiftl a 6) b = a * 64 + b.
Proof. intros. rewrite shiftl_lor; lia. Qed.

Lemma join3 a b c : 0 <= b < 64 -> 0 <= c < 64 ->
  Z.lor (Z.lor (Z.shiftl a 12) (Z.shiftl b 6)) c = a * 4096 + b * 64 + c.
Proof.
  intros Hb Hc.
  rewrite (Z.shiftl_mul_pow2 b 6) by lia.
  rewrite (shiftl_lor a (b * 2 ^ 6) 12) by lia.
  replace (a * 2 ^ 12 + b * 2 ^ 6) with ((a * 64 + b) * 2 ^ 6) by lia.
  rewrite lor_high_low; lia.
Qed.

Lemma join4 a b c d : 0 <= b < 64 -> 0 <= c < 64 -> 0 <= d < 64 ->
  Z.lor (Z.lor (Z.lor (Z.shiftl a 18) (Z.shiftl b 12)) (Z.shiftl c 6)) d
  = a * 262144 + b * 4096 + c * 64 + d.
Proof.
  intros Hb Hc Hd.
  rewrite (Z.shiftl_mul_pow2 b 12), (Z.shiftl_mul_pow2 c 6) by lia.
  rewrite (shiftl_lor a (b * 2 ^ 12) 18) by lia.
  replace (a * 2 ^ 18 + b * 2 ^ 12) with ((a * 64 + b) * 2 ^ 12) by lia.
  rewrite (lor_high_low (a * 64 + b) (c * 2 ^ 6) 12) by lia.
  replace ((a * 64 + b) * 2 ^ 12 + c * 2 ^ 6)
    with (((a * 64 + b) * 64 + c) * 2 ^ 6) by lia.
  rewrite lor_high_low; lia.
Qed.

Ltac zlia := Z.div_mod_to_equations; lia.

Ltac consts :=
  unfold RuneError, RuneSelf, MaxRune, surrogateMin, surrogateMax,
         rune2Max, rune3Max, locb, hicb, xx, as_, s1, s2, s3, s4, s5, s6, s7
    in *.

Ltac no_if t :=
  lazymatch t with
  | context [if _ then _ else _] => fail
  | _ => idtac
  end.

(** Decide the comparisons of the outermost conditional, one at a time. *)
Ltac zcase :=
  match goal with
  | |- context [if ?c then _ else _] =>
    match c with
    | context [?a <? ?b] => no_if a; no_if b; destruct (Z.ltb_spec a b)
    | context [?a <=? ?b] => no_if a; no_if b; destruct (Z.leb_spec a b)
    | context [?a =? ?b] => no_if a; no_if b; destruct (Z.eqb_spec a b)
    end; cbn [andb orb negb] in *; try zlia
  end.
Ltac zcases := repeat zcase.

Lemma lead2 r : 0 <= r <= rune2Max -> Z.lor t2 (Z.shiftr r 6) = 192 + r / 64.
Proof.
  unfold rune2Max. intros H. rewrite Z.shiftr_div_pow2 by lia.
  change t2 with (3 * 2 ^ 6). rewrite lor_high_low; [ | lia | ]; zlia.
Qed.

Lemma lead3 r : 0 <= r <= rune3Max -> Z.lor t3 (Z.shiftr r 12) = 224 + r / 4096.
Proof.
  unfold rune3Max. intros H. rewrite Z.shiftr_div_pow2 by lia.
  change t3 with (14 * 2 ^ 4). rewrite lor_high_low; [ | lia | ]; zlia.
Qed.

Lemma lead4 r : 0 <= r <= MaxRune -> Z.lor t4 (Z.shiftr r 18) = 240 + r / 262144.
Proof.
  unfold MaxRune. intros H. rewrite Z.shiftr_div_pow2 by lia.
  change t4 with (30 * 2 ^ 3). rewrite lor_high_low; [ | lia | ]; zlia.
Qed.

Lemma trail x : 0 <= x -> Z.lor tx (Z.land x maskx) = 128 + x mod 64.
Proof.
  intros H. rewrite land_maskx by lia.
  change tx with (2 * 2 ^ 6). rewrite lor_high_low; [ | lia | ]; zlia.
Qed.

Lemma trail6 r : 0 <= r ->
  Z.lor tx (Z.land (Z.shiftr r 6) maskx) = 128 + (r / 64) mod 64.
Proof.
  intros. rewrite trail by (apply Z.shiftr_nonneg; lia).
  rewrite Z.shiftr_div_pow2 by lia. reflexivity.
Qed.

Lemma trail12 r : 0 <= r ->
  Z.lor tx (Z.land (Z.shiftr r 12) maskx) = 128 + (r / 4096) mod 64.
Proof.
  intros. rewrite trail by (apply Z.shiftr_nonneg; lia).
  rewrite Z.shiftr_div_pow2 by lia. reflexivity.
Qed.

Lemma EncodeRune_1 r : 0 <= r < RuneSelf -> EncodeRune r = [z2b r].
Proof. unfold EncodeRune. consts. intros. zcases. reflexivity. Qed.

Lemma EncodeRune_2 r : RuneSelf <= r <= rune2Max ->
  EncodeRune r = [z2b (192 + r / 64); z2b (128 + r mod 64)].
Proof.
  intros H. unfold EncodeRune. rewrite lead2, trail by (consts; lia).
  consts. zcases. reflexivity.
Qed.

Lemma EncodeRune_3 r : rune2Max < r <= rune3Max ->
  ~ (surrogateMin <= r <= surrogateMax) ->
  EncodeRune r = [z2b (224 + r / 4096); z2b (128 + (r / 64) mod 64);
                  z2b (128 + r mod 64)].
Proof.
  intros H Hs. unfold EncodeRune.
  assert (E3 := lead3 r). assert (T0 := trail r). assert (T1 := trail6 r).
  consts. zcases; rewrite E3, T0, T1 by zlia; reflexivity.
Qed.

Lemma EncodeRune_4 r : rune3Max < r <= MaxRune ->
  EncodeRune r = [z2b (240 + r / 262144); z2b (128 + (r / 4096) mod 64);
                  z2b (128 + (r / 64) mod 64); z2b (128 + r mod 64)].
Proof.
  intros H. unfold EncodeRune.
  assert (E4 := lead4 r). assert (T0 := trail r). assert (T1 := trail6 r).
  assert (T2 := trail12 r).
  consts. zcases; rewrite E4, T0, T1, T2 by zlia; reflexivity.
Qed.

Ltac bytes_as_Z :=
  repeat match goal with
  | |- context [b2z ?b] =>
    let c := fresh "c" in
    let Hc := fresh "Hc" in
    pose proof (b2z_range b) as Hc;
    revert Hc; generalize (b2z b) as c; intros c Hc
  end.

Ltac table_lookup :=
  repeat match goal with
  | |- context [Z.to_nat (Z.land ?k 7)] =>
    let v := eval vm_compute in (Z.to_nat (Z.land k 7)) in
    change (Z.to_nat (Z.land k 7)) with v
  | |- context [acceptRanges (Z.shiftr ?k 4)] =>
    let v := eval vm_compute in (acceptRanges (Z.shiftr k 4)) in
    change (acceptRanges (Z.shiftr k 4)) with v
  end.

Ltac decode_steps :=
  unfold DecodeRuneInString, at_; cbn [length nth Nat.ltb Nat.leb];
  bytes_as_Z; intros;
  unfold first; consts; zcases;
  table_lookup; cbn [Nat.ltb Nat.leb]; cbv beta iota zeta; zcases.

Lemma Decode_1 b0 t : b2z b0 < RuneSelf ->
  DecodeRuneInString (b0 :: t) = (b2z b0, 1%nat).
Proof. decode_steps. reflexivity. Qed.

Ltac bits_as_arith :=
  rewrite ?land_maskx, ?land_mask2, ?land_mask3, ?land_mask4 by lia;
  rewrite ?join2, ?join3, ?join4 by zlia.

Lemma Decode_2 b0 b1 t :
  0xC2 <= b2z b0 <= 0xDF -> locb <= b2z b1 <= hicb ->
  DecodeRuneInString (b0 :: b1 :: t)
  = ((b2z b0 - 192) * 64 + (b2z b1 - 128), 2%nat).
Proof. decode_steps; bits_as_arith; f_equal; zlia. Qed.

Lemma Decode_3 b0 b1 b2 t :
  0xE0 <= b2z b0 <= 0xEF ->
  locb <= b2z b1 <= hicb -> locb <= b2z b2 <= hicb ->
  (b2z b0 = 0xE0 -> 0xA0 <= b2z b1) ->
  (b2z b0 = 0xED -> b2z b1 <= 0x9F) ->
  DecodeRuneInString (b0 :: b1 :: b2 :: t)
  = ((b2z b0 - 224) * 4096 + (b2z b1 - 128) * 64 + (b2z b2 - 128), 3%nat).
Proof. decode_steps; bits_as_arith; f_equal; zlia. Qed.

Lemma Decode_4 b0 b1 b2 b3 t :
  0xF0 <= b2z b0 <= 0xF4 ->
  locb <= b2z b1 <= hicb -> locb <= b2z b2 <= hicb ->
  locb <= b2z b3 <= hicb ->
  (b2z b0 = 0xF0 -> 0x90 <= b2z b1) ->
  (b2z b0 = 0xF4 -> b2z b1 <= 0x8F) ->
  DecodeRuneInString (b0 :: b1 :: b2 :: b3 :: t)
  = ((b2z b0 - 240) * 262144 + (b2z b1 - 128) * 4096
     + (b2z b2 - 128) * 64 + (b2z b3 - 128), 4%nat).
Proof. decode_steps; bits_as_arith; f_equal; zlia. Qed.

(** Encoding a valid rune and decoding it again gives the rune back. *)
Lemma Decode_Encode r rest : valid_rune r ->
  DecodeRuneInString (EncodeRune r ++ rest) = (r, length (EncodeRune r)).
Proof.
  unfold valid_rune. intros H.
  destruct (Z_lt_le_dec r RuneSelf) as [H1|H1].
  { rewrite EncodeRune_1 by (consts; lia). cbn [app length].
    rewrite Decode_1; rewrite b2z_z2b; consts; (reflexivity || lia). }
  destruct (Z_le_gt_dec r rune2Max) as [H2|H2].
  { rewrite EncodeRune_2 by lia. cbn [app length].
    rewrite Decode_2; rewrite ?b2z_z2b; consts; try zlia.
    f_equal. zlia. }
  destruct (Z_le_gt_dec r rune3Max) as [H3|H3].
  { rewrite EncodeRune_3 by (consts; lia). cbn [app length].
    rewrite Decode_3; rewrite ?b2z_z2b; consts; try zlia.
    f_equal. zlia. }
  rewrite EncodeRune_4 by (consts; lia). cbn [app length].
  rewrite Decode_4; rewrite ?b2z_z2b; consts; try zlia.
  f_equal. zlia.
Qed.

Lemma EncodeRune_length r : (1 <= length (EncodeRune r))%nat.
Proof.
  unfold EncodeRune.
  repeat match goal with
  | |- context [if ?c then _ else _] => destruct c
  end; cbn [length]; lia.
Qed.

(** The decoder yields a valid rune and a width within the string. *)
Lemma Decode_valid s : s <> [] ->
  valid_rune (fst (DecodeRuneInString s))
  /\ (1 <= snd (DecodeRuneInString s) <= length s)%nat.
Proof.
  intros Hs. unfold valid_rune.
  destruct s as [|b0 [|b1 [|b2 [|b3 t]]]]; [congruence | | | | ];
    decode_steps; cbn [fst snd length]; bits_as_arith;
    (split; [zlia | lia]).
Qed.

Lemma Decode_width s r n : s <> [] -> DecodeRuneInString s = (r, n) ->
  (1 <= n <= length s)%nat.
Proof. intros Hs E. pose proof (Decode_valid s Hs) as H. rewrite E in H. apply H. Qed.

Lemma Decode_rune_valid s r n : s <> [] -> DecodeRuneInString s = (r, n) ->
  valid_rune r.
Proof. intros Hs E. pose proof (Decode_valid s Hs) as H. rewrite E in H. apply H. Qed.

End utf8_facts.

Local Open Scope nat_scope.

Module runes_facts.
Import utf8 utf8_facts.

Lemma runes_fuel_stable fuel : forall fuel' s,
  length s <= fuel -> length s <= fuel' ->
  runes_fuel fuel s = runes_fuel fuel' s.
Proof.
  induction fuel as [|fuel IH]; intros fuel' s H H'.
  - destruct s; [destruct fuel'; reflexivity | cbn in H; lia].
  - destruct s as [|b t]; [destruct fuel'; reflexivity|].
    destruct fuel' as [|fuel']; [cbn in H'; lia|].
    cbn [runes_fuel].
    destruct (DecodeRuneInString (b :: t)) as [r n] eqn:E.
    pose proof (Decode_width (b :: t) r n ltac:(discriminate) E) as W.
    assert (length (skipn n (b :: t)) < length (b :: t))
      by (rewrite length_skipn; lia).
    rewrite (IH fuel') by lia. reflexivity.
Qed.

Lemma runes_fuel_total fuel : forall s,
  length s <= fuel -> exists rs, runes_fuel fuel s = Some rs.
Proof.
  induction fuel as [|fuel IH]; intros s H.
  - destruct s; [exists []; reflexivity | cbn in H; lia].
  - destruct s as [|b t]; [exists []; reflexivity|].
    cbn [runes_fuel].
    destruct (DecodeRuneInString (b :: t)) as [r n] eqn:E.
    pose proof (Decode_width (b :: t) r n ltac:(discriminate) E) as W.
    destruct (IH (skipn n (b :: t))) as [rs Hrs].
    { rewrite length_skipn. lia. }
    rewrite Hrs. exists (r :: rs). reflexivity.
Qed.

Lemma runes_nil : runes [] = [].
Proof. reflexivity. Qed.

Lemma runes_step s r n : s <> [] -> DecodeRuneInString s = (r, n) ->
  runes s = r :: runes (skipn n s).
Proof.
  intros Hs E. unfold runes.
  destruct s as [|b t]; [congruence|].
  pose proof (Decode_width (b :: t) r n Hs E) as W.
  cbn [length runes_fuel]. rewrite E.
  rewrite (runes_fuel_stable (length t) (length (skipn n (b :: t))))
    by (rewrite length_skipn; cbn [length]; lia).
  destruct (runes_fuel_total (length (skipn n (b :: t))) (skipn n (b :: t))
              (le_n _)) as [rs Hrs].
  rewrite Hrs. reflexivity.
Qed.

Lemma runes_nonempty s : s <> [] -> runes s <> [].
Proof.
  intros Hs. destruct (DecodeRuneInString s) as [r n] eqn:E.
  rewrite (runes_step s r n Hs E). discriminate.
Qed.

Lemma runes_Encode r rest : valid_rune r ->
  runes (EncodeRune r ++ rest) = r :: runes rest.
Proof.
  intros V. pose proof (EncodeRune_length r) as L.
  rewrite (runes_step _ r (length (EncodeRune r))).
  - rewrite skipn_app, skipn_all, Nat.sub_diag. reflexivity.
  - destruct (EncodeRune r); [cbn in L; lia | cbn; discriminate].
  - apply Decode_Encode. exact V.
Qed.

Lemma runes_flat_map rs : Forall valid_rune rs ->
  runes (flat_map EncodeRune rs) = rs.
Proof.
  induction 1 as [|r rs V _ IH]; [reflexivity|].
  cbn [flat_map]. rewrite runes_Encode by exact V. rewrite IH. reflexivity.
Qed.

Lemma runes_valid s : Forall valid_rune (runes s).
Proof.
  remember (length s) as k eqn:Hk. revert s Hk.
  induction k as [k IH] using lt_wf_ind. intros s Hk.
  destruct s as [|b t]; [constructor|].
  destruct (DecodeRuneInString (b :: t)) as [r n] eqn:E.
  pose proof (Decode_width (b :: t) r n ltac:(discriminate) E) as W.
  rewrite (runes_step (b :: t) r n ltac:(discriminate) E).
  constructor.
  - apply (Decode_rune_valid (b :: t) r n); [discriminate | exact E].
  - apply (IH (length (skipn n (b :: t)))); [|reflexivity].
    rewrite length_skipn. subst k. lia.
Qed.

Lemma flat_map_Encode_nonempty rs : rs <> [] -> flat_map EncodeRune rs <> [].
Proof.
  destruct rs as [|r rs]; [congruence|]. intros _. cbn [flat_map].
  pose proof (EncodeRune_length r). destruct (EncodeRune r); [cbn in *; lia | cbn; discriminate].
Qed.

End runes_facts.

Module filepath_facts.
Import filepath.

Lemma Base_nonempty path : Base path <> [].
Proof.
  unfold Base. destruct path as [|b t]; [discriminate|].
  match goal with |- match ?p with _ => _ end <> _ => destruct p end; discriminate.
Qed.

Lemma Base_empty : Base [] = str ".".
Proof. reflexivity. Qed.

End filepath_facts.

Section SanitiseFacts.
Import utf8 utf8_facts runes_facts filepath_facts.
Variables IsLetter IsNumber : Z -> bool.
Local Abbreviation keep := (spec_keep IsLetter IsNumber).
Local Abbreviation sanitise := (sanitise IsLetter IsNumber).
Local Abbreviation sanitise_loop := (sanitise_loop IsLetter IsNumber).

Lemma keep_length acc rs : length (keep acc rs) = length rs.
Proof.
  revert acc. induction rs as [|r rs IH]; intros acc; [reflexivity|].
  cbn [spec_keep]. destruct (IsLetter r); [|destruct (acc && IsNumber r)];
    cbn [length]; rewrite IH; reflexivity.
Qed.

Lemma keep_valid acc rs : Forall valid_rune rs -> Forall valid_rune (keep acc rs).
Proof.
  intros H. revert acc. induction H as [|r rs V _ IH]; intros acc; [constructor|].
  cbn [spec_keep]. destruct (IsLetter r); [|destruct (acc && IsNumber r)];
    constructor; auto.
  unfold valid_rune, underscore. consts. lia.
Qed.

(** The loop writes the encodings of the kept code points after [buf]. *)
Lemma sanitise_loop_spec fuel : forall name first buf,
  length name <= fuel ->
  sanitise_loop fuel name first buf
  = Some (buf ++ flat_map EncodeRune (keep (negb first) (runes name))).
Proof.
  induction fuel as [|fuel IH]; intros name first buf H.
  - destruct name; [|cbn in H; lia]. cbn. rewrite app_nil_r. reflexivity.
  - destruct name as [|b t]; [cbn; rewrite app_nil_r; reflexivity|].
    cbn [sanitise_loop].
    destruct (DecodeRuneInString (b :: t)) as [r n] eqn:E.
    pose proof (Decode_width (b :: t) r n ltac:(discriminate) E) as W.
    rewrite (runes_step (b :: t) r n ltac:(discriminate) E).
    assert (Hlen : length (skipn n (b :: t)) <= fuel)
      by (rewrite length_skipn; cbn [length] in *; lia).
    cbn [spec_keep]. destruct (IsLetter r); cbn [orb].
    + rewrite IH by exact Hlen. unfold WriteRune. cbn [negb flat_map].
      rewrite <- app_assoc. reflexivity.
    + destruct first; cbn [negb andb].
      * rewrite IH by exact Hlen. unfold WriteByte. cbn [negb flat_map].
        rewrite <- app_assoc. reflexivity.
      * destruct (IsNumber r).
        -- rewrite IH by exact Hlen. unfold WriteRune. cbn [negb flat_map].
           rewrite <- app_assoc. reflexivity.
        -- rewrite IH by exact Hlen. unfold WriteByte. cbn [negb flat_map].
           rewrite <- app_assoc. reflexivity.
Qed.

(** [sanitise] never takes its fallback: the identifier is the encoding
    of the kept code points of the base name. *)
Lemma sanitise_spec name :
  sanitise name
  = Some (flat_map EncodeRune (keep false (runes (filepath.Base name)))).
Proof.
  unfold sanitise. rewrite sanitise_loop_spec by apply le_n.
  cbn [app negb].
  set (out := flat_map EncodeRune _).
  assert (Hout : out <> []).
  { apply flat_map_Encode_nonempty. intros E.
    apply (f_equal (@length Z)) in E. rewrite keep_length in E.
    pose proof (runes_nonempty _ (Base_nonempty name)) as Hr.
    destruct (runes (filepath.Base name)); [congruence | discriminate]. }
  destruct out; [congruence|]. reflexivity.
Qed.

Lemma sanitise_runes name id : sanitise name = Some id ->
  runes id = keep false (runes (filepath.Base name)).
Proof.
  rewrite sanitise_spec. intros [= <-].
  apply runes_flat_map, keep_valid, runes_valid.
Qed.

End SanitiseFacts.

Section SanitiseClaims.
Import utf8 utf8_facts runes_facts filepath_facts.
Variables IsLetter IsNumber : Z -> bool.
Local Abbreviation keep := (spec_keep IsLetter IsNumber).
Local Abbreviation sanitise := (sanitise IsLetter IsNumber).
Local Abbreviation sanitise_loop := (sanitise_loop IsLetter IsNumber).

Lemma keep_app acc a b :
  keep acc (a ++ b) = keep acc a ++ keep (acc || existsb IsLetter a) b.
Proof.
  revert acc. induction a as [|r a IH]; intros acc.
  - cbn. rewrite orb_false_r. reflexivity.
  - cbn [app spec_keep existsb]. destruct (IsLetter r) eqn:EL.
    + rewrite IH. cbn [orb app]. rewrite orb_true_r. reflexivity.
    + destruct (acc && IsNumber r); rewrite IH; reflexivity.
Qed.

Lemma keep_no_letter rs : Forall (fun r => IsLetter r = false) rs ->
  keep false rs = repeat underscore (length rs).
Proof.
  induction 1 as [|r rs Hr _ IH]; [reflexivity|].
  cbn [spec_keep length repeat andb]. rewrite Hr, IH. reflexivity.
Qed.

Lemma keep_accepted rs :
  keep true rs
  = map (fun r => if IsLetter r || IsNumber r then r else underscore) rs.
Proof.
  induction rs as [|r rs IH]; [reflexivity|].
  cbn [spec_keep map andb]. destruct (IsLetter r), (IsNumber r); cbn [orb];
    rewrite IH; reflexivity.
Qed.

Lemma keep_pointwise acc rs :
  Forall2 (fun r o => o = r \/ o = underscore) rs (keep acc rs).
Proof.
  revert acc. induction rs as [|r rs IH]; intros acc; [constructor|].
  cbn [spec_keep]. destruct (IsLetter r); [|destruct (acc && IsNumber r)];
    constructor; auto.
Qed.

Lemma keep_charset acc rs :
  Forall (fun r => IsLetter r = true \/ IsNumber r = true \/ r = underscore)
         (keep acc rs).
Proof.
  revert acc. induction rs as [|r rs IH]; intros acc; [constructor|].
  cbn [spec_keep]. destruct (IsLetter r) eqn:EL; [constructor; auto|].
  destruct acc; cbn [andb]; [destruct (IsNumber r) eqn:EN|]; constructor; auto.
Qed.

Lemma existsb_no_letter rs : Forall (fun r => IsLetter r = false) rs ->
  existsb IsLetter rs = false.
Proof.
  induction 1 as [|r rs Hr _ IH]; [reflexivity|]. cbn. rewrite Hr, IH. reflexivity.
Qed.

Lemma Encode_underscores n :
  flat_map EncodeRune (repeat underscore n) = repeat "_"%byte n.
Proof. induction n as [|n IH]; [reflexivity|]. cbn [repeat flat_map]. rewrite IH. reflexivity. Qed.

(** Where every number of the name is a digit, the kept code points
    are letters, digits and underscores. *)
Lemma keep_digits (IsDigit : Z -> bool) acc rs :
  Forall (fun r => IsNumber r = true -> IsDigit r = true) rs ->
  forallb (fun c => IsLetter c || IsDigit c || (c =? underscore)%Z)
          (keep acc rs) = true.
Proof.
  intros H. revert acc. induction H as [|r rs Hr _ IH]; intros acc; [reflexivity|].
  cbn [spec_keep]. destruct (IsLetter r) eqn:EL.
  - cbn [forallb]. rewrite EL, IH. reflexivity.
  - destruct acc; cbn [andb].
    + destruct (IsNumber r) eqn:EN; cbn [forallb].
      * rewrite (Hr eq_refl), IH, orb_true_r. reflexivity.
      * rewrite IH, Z.eqb_refl, orb_true_r. reflexivity.
    + cbn [forallb]. rewrite IH, Z.eqb_refl, orb_true_r. reflexivity.
Qed.

(** C4 (amended): for every file name, [sanitise] returns a non-empty
    identifier that starts with a letter or an underscore; when every
    number ([unicode.IsNumber]) of the base name is a digit, the identifier
    has the syntax of an identifier: letters, digits and underscores only,
    not starting with a digit.  The result is the same for every name whose
    base name has the same code points, so the same input always yields
    the same output.  Base names with a number that is not a digit are left
    out here. *)
Theorem sanitise_identifier_shape (IsDigit : Z -> bool) (f : list byte) :
  exists id, sanitise f = Some id
    /\ 0 < length id
    /\ (exists r rs, runes id = r :: rs /\ (IsLetter r = true \/ r = underscore))
    /\ (Forall (fun r => IsNumber r = true -> IsDigit r = true)
               (runes (filepath.Base f)) ->
        go_identifier IsLetter IsDigit (runes id) = true)
    /\ (forall g, runes (filepath.Base g) = runes (filepath.Base f) ->
                  sanitise g = Some id).
Proof.
  pose proof (sanitise_spec IsLetter IsNumber f) as E.
  eexists. split; [exact E|].
  pose proof (sanitise_runes _ _ _ _ E) as R.
  pose proof (runes_nonempty _ (Base_nonempty f)) as Hne.
  split; [|split; [|split]].
  - destruct (flat_map EncodeRune _) as [|b t] eqn:Z; [|cbn; lia].
    cbn in R. apply (f_equal (@length _)) in R. rewrite keep_length in R.
    destruct (runes (filepath.Base f)); [congruence | discriminate].
  - rewrite R. destruct (runes (filepath.Base f)) as [|r rs]; [congruence|].
    cbn [spec_keep andb]. destruct (IsLetter r) eqn:EL; eauto.
  - intros Hd. rewrite R.
    destruct (runes (filepath.Base f)) as [|r rs]; [congruence|].
    inversion Hd as [|? ? Hr Hrs]; subst.
    cbn [spec_keep andb]. destruct (IsLetter r) eqn:EL; cbn [go_identifier].
    + rewrite EL. cbn [orb andb]. apply keep_digits, Hrs.
    + rewrite Z.eqb_refl, orb_true_r. cbn [andb]. apply keep_digits, Hrs.
  - intros g Hg. rewrite sanitise_spec, Hg. reflexivity.
Qed.

(** The rule of the loop, for the predicates it tests: the code points
    of the identifier are those of the base name, each kept if it is a
    letter, kept if it is a number ([unicode.IsNumber]) and a letter was
    accepted before it, and replaced by one underscore otherwise; so a
    prefix without letters becomes underscores only, and after any letter
    every letter and number is retained. *)
Theorem sanitise_code_points (f : list byte) :
  exists id, sanitise f = Some id
    /\ runes id = keep false (runes (filepath.Base f))
    /\ (forall pre post,
          runes (filepath.Base f) = pre ++ post ->
          Forall (fun r => IsLetter r = false) pre ->
          firstn (length pre) (runes id) = repeat underscore (length pre))
    /\ (forall pre l post,
          runes (filepath.Base f) = pre ++ l :: post ->
          IsLetter l = true ->
          skipn (S (length pre)) (runes id)
          = map (fun r => if IsLetter r || IsNumber r then r else underscore)
                post).
Proof.
  pose proof (sanitise_spec IsLetter IsNumber f) as E.
  eexists. split; [exact E|].
  pose proof (sanitise_runes _ _ _ _ E) as R.
  split; [exact R|]. split.
  - intros pre post Hsplit Hpre. rewrite R, Hsplit, keep_app.
    rewrite keep_no_letter by exact Hpre.
    rewrite firstn_app, repeat_length, Nat.sub_diag, firstn_O, app_nil_r.
    rewrite <- (repeat_length underscore (length pre)) at 1.
    apply firstn_all.
  - intros pre l post Hsplit Hl. rewrite R, Hsplit, keep_app.
    cbn [spec_keep]. rewrite Hl.
    rewrite <- keep_accepted.
    replace (S (length pre)) with (length (keep false pre ++ [l])).
    + change (l :: keep true post) with ([l] ++ keep true post).
      rewrite app_assoc, skipn_app, skipn_all, Nat.sub_diag. reflexivity.
    + rewrite length_app, keep_length. cbn. lia.
Qed.

(** C6 (amended): when the base name holds no letter, [sanitise]
    returns one underscore for each of its code points. *)
Theorem sanitise_without_letters (f : list byte) :
  Forall (fun r => IsLetter r = false) (runes (filepath.Base f)) ->
  sanitise f = Some (repeat "_"%byte (length (runes (filepath.Base f)))).
Proof.
  intros H. rewrite sanitise_spec, keep_no_letter by exact H.
  rewrite Encode_underscores. reflexivity.
Qed.

(** C10: every code point of the base name yields exactly one code point
    of the identifier, itself or an underscore, so both have the same
    number of code points; the base name is never empty (it is "." for the
    empty path), hence the loop leaves a non-empty buffer, the fallback is
    not taken and the identifier is non-empty. *)
Theorem sanitise_one_for_one (f : list byte) :
  exists id, sanitise f = Some id
    /\ Forall2 (fun r o => o = r \/ o = underscore)
               (runes (filepath.Base f)) (runes id)
    /\ length (runes id) = length (runes (filepath.Base f))
    /\ 0 < length (filepath.Base f)
    /\ filepath.Base [] = str "."
    /\ sanitise_loop (length (filepath.Base f)) (filepath.Base f) true []
       = Some id
    /\ 0 < length id.
Proof.
  pose proof (sanitise_spec IsLetter IsNumber f) as E.
  eexists. split; [exact E|].
  pose proof (sanitise_runes _ _ _ _ E) as R.
  pose proof (runes_nonempty _ (Base_nonempty f)) as Hne.
  repeat split.
  - rewrite R. apply keep_pointwise.
  - rewrite R. apply keep_length.
  - pose proof (Base_nonempty f). destruct (filepath.Base f); [congruence|].
    cbn. lia.
  - rewrite sanitise_loop_spec by apply le_n. reflexivity.
  - destruct (flat_map EncodeRune _) as [|b t] eqn:Z; [|cbn; lia].
    cbn in R. apply (f_equal (@length _)) in R. rewrite keep_length in R.
    destruct (runes (filepath.Base f)); [congruence | discriminate].
Qed.

End SanitiseClaims.

(** C4 (as stated) fails: the identifier of "123.txt" starts with an
    underscore, not with a letter. *)
Lemma sanitise_leading_digits_counterexample :
  sanitise unicode.IsLetter unicode.IsNumber (str "123.txt")
  = Some (str "____txt")
  /\ ~ (exists id,
          sanitise unicode.IsLetter unicode.IsNumber (str "123.txt") = Some id
          /\ starts_with_letter unicode.IsLetter id = true).
Proof.
  split; [vm_compute; reflexivity|].
  intros (id & E & H). vm_compute in E. injection E as <-.
  vm_compute in H. discriminate H.
Qed.

Lemma sanitise_identifier_shape_witness :
  exists id,
    sanitise unicode.IsLetter unicode.IsNumber (str "x/1a2.b") = Some id
    /\ go_identifier unicode.IsLetter unicode.IsDigit (utf8.runes id) = true
    /\ sanitise unicode.IsLetter unicode.IsNumber (str "1a2.b") = Some id.
Proof.
  destruct (sanitise_identifier_shape unicode.IsLetter unicode.IsNumber
              unicode.IsDigit (str "x/1a2.b")) as (id & H1 & _ & _ & H4 & H5).
  exists id. split; [exact H1|]. split.
  - apply H4.
    assert (R : utf8.runes (filepath.Base (str "x/1a2.b"))
                = [49; 97; 50; 46; 98]%Z) by (vm_compute; reflexivity).
    rewrite R. repeat constructor; intros H; try reflexivity; discriminate H.
  - apply H5. vm_compute. reflexivity.
Defined.

(** C5 (the code departs from it): the loop tests [unicode.IsNumber]
    where the rule asks for a digit.  In "a" followed by SUPERSCRIPT TWO
    (U+00B2) and ".txt" the superscript is a number, not a digit and not a
    letter; [sanitise] keeps it after the letter, where the rule replaces
    it by an underscore, and the result does not have the syntax of an
    identifier. *)
Theorem sanitise_keeps_number_not_digit :
  let name := str "a" ++ [xc2; xb2] ++ str ".txt" in
  utf8.runes (filepath.Base name) = [97; 178; 46; 116; 120; 116]%Z
  /\ unicode.IsLetter 178 = false
  /\ unicode.IsDigit 178 = false
  /\ unicode.IsNumber 178 = true
  /\ sanitise unicode.IsLetter unicode.IsNumber name
     = Some (str "a" ++ [xc2; xb2] ++ str "_txt")
  /\ flat_map utf8.EncodeRune
       (spec_keep unicode.IsLetter unicode.IsDigit false
                  (utf8.runes (filepath.Base name)))
     = str "a__txt"
  /\ go_identifier unicode.IsLetter unicode.IsDigit
       (utf8.runes (str "a" ++ [xc2; xb2] ++ str "_txt")) = false
  /\ go_identifier unicode.IsLetter unicode.IsDigit
       (utf8.runes (str "a__txt")) = true.
Proof. vm_compute. repeat split. Qed.

(** C6 (as stated) fails: a base name of two non-identifier characters
    gives two underscores, not one. *)
Lemma sanitise_two_underscores_counterexample :
  sanitise unicode.IsLetter unicode.IsNumber (str "--") = Some (str "__")
  /\ sanitise unicode.IsLetter unicode.IsNumber (str "12") = Some (str "__")
  /\ sanitise unicode.IsLetter unicode.IsNumber (str "--") <> Some (str "_")
  /\ sanitise unicode.IsLetter unicode.IsNumber (str "12") <> Some (str "_").
Proof.
  split; [vm_compute; reflexivity|]. split; [vm_compute; reflexivity|].
  split; vm_compute; discriminate.
Qed.

Lemma sanitise_code_points_witness :
  exists id,
    sanitise unicode.IsLetter unicode.IsNumber (str "12a3.b") = Some id
    /\ firstn 2 (utf8.runes id) = [95; 95]%Z
    /\ skipn 3 (utf8.runes id) = [51; 95; 98]%Z.
Proof.
  destruct (sanitise_code_points unicode.IsLetter unicode.IsNumber (str "12a3.b"))
    as (id & H1 & _ & H3 & H4).
  exists id. split; [exact H1|]. split.
  - apply (H3 [49; 50]%Z [97; 51; 46; 98]%Z); [vm_compute; reflexivity|].
    repeat constructor.
  - apply (H4 [49; 50]%Z 97%Z [51; 46; 98]%Z); vm_compute; reflexivity.
Defined.

Lemma sanitise_without_letters_witness :
  sanitise unicode.IsLetter unicode.IsNumber [] = Some (str "_")
  /\ sanitise unicode.IsLetter unicode.IsNumber (str "///") = Some (str "_")
  /\ sanitise unicode.IsLetter unicode.IsNumber (str "1.5") = Some (str "___").
Proof.
  split; [|split].
  - apply (sanitise_without_letters unicode.IsLetter unicode.IsNumber []).
    vm_compute. repeat constructor.
  - apply (sanitise_without_letters unicode.IsLetter unicode.IsNumber (str "///")).
    vm_compute. repeat constructor.
  - apply (sanitise_without_letters unicode.IsLetter unicode.IsNumber (str "1.5")).
    vm_compute. repeat constructor.
Defined.

Section ReadFacts.

Lemma firstn_plus {A} (k j : nat) : forall p : list A,
  firstn (k + j) p = firstn k p ++ firstn j (skipn k p).
Proof.
  induction k as [|k IH]; intros p; [reflexivity|].
  destruct p as [|a p]; [cbn; rewrite firstn_nil; reflexivity|].
  cbn [Nat.add firstn skipn app]. rewrite IH. reflexivity.
Qed.

Lemma firstn_firstn_skipn {A} (k m : nat) (p : list A) : k <= m ->
  firstn k p ++ firstn (m - length (firstn k p)) (skipn k p) = firstn m p.
Proof.
  intros H. rewrite length_firstn.
  destruct (Nat.le_gt_cases k (length p)) as [Hk|Hk].
  - rewrite Nat.min_l by lia.
    replace m with (k + (m - k)) at 2 by lia.
    rewrite firstn_plus. reflexivity.
  - rewrite Nat.min_r by lia. rewrite (firstn_all2 (n := k)) by lia.
    rewrite skipn_all2 by lia. rewrite firstn_nil, app_nil_r.
    rewrite firstn_all2 by lia. reflexivity.
Qed.

Lemma ReadAtLeast_loop_spec m fuel : forall got r,
  length got <= m -> m <= length got + fuel ->
  io.ReadAtLeast_loop fuel m m got None r
  = Some (got ++ firstn (m - length got) (pending r),
          (if m - length got <=? length (pending r) then None
           else Some (at_end r)),
          mkReader (skipn (m - length got) (pending r)) (at_end r) (grain r)).
Proof.
  induction fuel as [|fuel IH]; intros got r Hle Hfuel.
  - assert (length got = m) as E by lia.
    cbn [io.ReadAtLeast_loop]. rewrite E, Nat.ltb_irrefl, Nat.sub_diag.
    cbn. rewrite app_nil_r. destruct r; reflexivity.
  - cbn [io.ReadAtLeast_loop]. cbn [is_nil]. rewrite andb_true_r.
    destruct (Nat.ltb_spec (length got) m) as [Hlt|Hge].
    + unfold io.Read. destruct (pending r) as [|b t] eqn:Ep.
      * destruct fuel; cbn [io.ReadAtLeast_loop is_nil]; rewrite andb_false_r;
          rewrite firstn_nil, skipn_nil, !app_nil_r;
          (destruct (Nat.leb_spec (m - length got) (length (@nil byte)));
           [cbn in *; lia|]); destruct r; cbn in *; subst; reflexivity.
      * set (k := Nat.min (m - length got) (S (grain r))).
        assert (1 <= k <= m - length got) as Hk by (unfold k; lia).
        rewrite IH.
        -- cbn [pending at_end grain]. rewrite length_app.
           f_equal. f_equal; [f_equal|].
           ++ rewrite <- app_assoc. f_equal.
              replace (m - (length got + length (firstn k (b :: t))))
                with (m - length got - length (firstn k (b :: t))) by lia.
              apply firstn_firstn_skipn. lia.
           ++ rewrite length_skipn, length_firstn.
              destruct (Nat.leb_spec (m - (length got + Nat.min k (length (b :: t))))
                                     (length (b :: t) - k));
              destruct (Nat.leb_spec (m - length got) (length (b :: t)));
              try reflexivity; lia.
           ++ f_equal. rewrite skipn_skipn. rewrite length_firstn.
              destruct (Nat.le_gt_cases k (length (b :: t))).
              ** f_equal. lia.
              ** rewrite !skipn_all2 by lia. reflexivity.
        -- rewrite length_app, length_firstn. lia.
        -- rewrite length_app, length_firstn. cbn [length]. lia.
    + assert (length got = m) as E by lia.
      rewrite E, Nat.sub_diag. cbn. rewrite app_nil_r. destruct r; reflexivity.
Qed.

Lemma ReadFull_spec {C} (size : nat) (w : World C) :
  io.ReadFull size w
  = Some ((firstn size (pending (w_src w)),
           ReadFull_err size (pending (w_src w)) (at_end (w_src w))),
          set_pending (skipn size (pending (w_src w))) w).
Proof.
  unfold io.ReadFull, io.ReadAtLeast. rewrite Nat.ltb_irrefl.
  rewrite ReadAtLeast_loop_spec by (cbn; lia).
  cbn [length app]. rewrite Nat.sub_0_r. unfold set_pending, ReadFull_err.
  f_equal. f_equal. f_equal.
  rewrite length_firstn.
  destruct (Nat.leb_spec size (length (pending (w_src w)))) as [H|H].
  - rewrite Nat.min_l by lia. rewrite Nat.leb_refl. reflexivity.
  - rewrite Nat.min_r by lia.
    destruct (Nat.leb_spec size (length (pending (w_src w)))); [lia|].
    reflexivity.
Qed.

End ReadFacts.

Section WriteFacts.
Context {C : Compressor}.
Implicit Types (w : World C) (dst : Writer) (p : list byte).

Lemma Write_healthy dst p w : healthy w ->
  Write dst p w = Some ((length p, None), push dst p w)
  /\ healthy (push dst p w).
Proof.
  revert w. induction dst as [| |d IH]; intros w [Hr Hz].
  - unfold push. cbn [Write]. unfold io.sink_Write. rewrite Hr.
    split; [reflexivity|]. split; [reflexivity | exact Hz].
  - unfold push. cbn [Write]. unfold gzip.Write. rewrite Hz.
    destruct (gz_step C (z_state (w_gz w)) p) as [st out].
    destruct out as [|b out].
    + cbn. split; [reflexivity|]. split; [exact Hr | reflexivity].
    + unfold io.sink_Write. rewrite Hr. cbn.
      split; [reflexivity|]. split; reflexivity.
  - destruct (IH w (conj Hr Hz)) as [E [Hr' Hz']].
    unfold push. cbn [Write]. unfold bind. rewrite E.
    cbn [is_nil negb]. rewrite Nat.eqb_refl. cbn [negb].
    split; [reflexivity|]. split; [exact Hr' | exact Hz'].
Qed.

Lemma Fprintf_healthy dst p w : healthy w ->
  Fprintf dst p w = Some (None, push dst p w).
Proof.
  intros H. unfold Fprintf, bind.
  rewrite (proj1 (Write_healthy dst p w H)). reflexivity.
Qed.

Lemma push_healthy dst p w : healthy w -> healthy (push dst p w).
Proof. intros H. apply (Write_healthy dst p w H). Qed.

Lemma push_all_healthy dst ps : forall w, healthy w -> healthy (push_all dst ps w).
Proof.
  induction ps as [|p ps IH]; intros w H; [exact H|].
  cbn [push_all fold_left]. apply IH, push_healthy, H.
Qed.

Lemma push_all_app dst ps qs w :
  push_all dst (ps ++ qs) w = push_all dst qs (push_all dst ps w).
Proof. unfold push_all. apply fold_left_app. Qed.

Lemma Write_set_pending dst p q : forall w,
  Write dst p (set_pending q w)
  = match Write dst p w with
    | Some (r, w') => Some (r, set_pending q w')
    | None => None
    end.
Proof.
  induction dst as [| |d IH]; intros w.
  - cbn [Write]. cbn [set_pending w_dst w_src w_gz w_sha1].
    destruct (io.sink_Write (w_dst w) p) as [[n e] s]. reflexivity.
  - cbn [Write]. unfold gzip.Write. cbn [set_pending w_dst w_src w_gz w_sha1].
    destruct (z_err (w_gz w)); [reflexivity|].
    destruct (gz_step C (z_state (w_gz w)) p) as [st out].
    destruct out; [reflexivity|].
    destruct (io.sink_Write (w_dst w) (b :: out)) as [[n e] s]. reflexivity.
  - cbn [Write]. unfold bind. rewrite IH.
    destruct (Write d p w) as [[[n e] w']|]; [|reflexivity].
    destruct (negb (is_nil e)); [reflexivity|].
    destruct (negb (n =? length p)); reflexivity.
Qed.

Lemma Write_src dst p : forall w r w',
  Write dst p w = Some (r, w') -> w_src w' = w_src w.
Proof.
  induction dst as [| |d IH]; intros w r w'.
  - cbn [Write]. destruct (io.sink_Write (w_dst w) p) as [[n e] s].
    intros [= _ <-]. reflexivity.
  - cbn [Write]. unfold gzip.Write. destruct (z_err (w_gz w)).
    + intros [= _ <-]. reflexivity.
    + destruct (gz_step C (z_state (w_gz w)) p) as [st out].
      destruct out; [intros [= _ <-]; reflexivity|].
      destruct (io.sink_Write (w_dst w) (b :: out)) as [[n e] s].
      intros [= _ <-]. reflexivity.
  - cbn [Write]. unfold bind.
    destruct (Write d p w) as [[[n e] w1]|] eqn:E; [|discriminate].
    apply IH in E.
    destruct (negb (is_nil e)); [intros [= _ <-]; exact E|].
    destruct (negb (n =? length p)); intros [= _ <-]; exact E.
Qed.

Lemma push_src dst p w : w_src (push dst p w) = w_src w.
Proof.
  unfold push. destruct (Write dst p w) as [[r w']|] eqn:E; [|reflexivity].
  apply (Write_src dst p w r w' E).
Qed.

Lemma Write_total dst p : forall w, exists r w', Write dst p w = Some (r, w').
Proof.
  induction dst as [| |d IH]; intros w.
  - cbn [Write]. destruct (io.sink_Write (w_dst w) p) as [[n e] s]. eauto.
  - cbn [Write]. unfold gzip.Write. destruct (z_err (w_gz w)); [eauto|].
    destruct (gz_step C (z_state (w_gz w)) p) as [st out].
    destruct out; [eauto|].
    destruct (io.sink_Write (w_dst w) (b :: out)) as [[n e] s]. eauto.
  - cbn [Write]. unfold bind. destruct (IH w) as ([n e] & w1 & E). rewrite E.
    destruct (negb (is_nil e)); [unfold ret; eauto|].
    destruct (negb (n =? length p)); unfold ret; eauto.
Qed.

Lemma Write_closes dst p : forall w r w',
  Write dst p w = Some (r, w') -> z_closes (w_gz w') = z_closes (w_gz w).
Proof.
  induction dst as [| |d IH]; intros w r w'.
  - cbn [Write]. destruct (io.sink_Write (w_dst w) p) as [[n e] s].
    intros [= _ <-]. reflexivity.
  - cbn [Write]. unfold gzip.Write. destruct (z_err (w_gz w)).
    + intros [= _ <-]. reflexivity.
    + destruct (gz_step C (z_state (w_gz w)) p) as [st out].
      destruct out; [intros [= _ <-]; reflexivity|].
      destruct (io.sink_Write (w_dst w) (b :: out)) as [[n e] s].
      intros [= _ <-]. reflexivity.
  - cbn [Write]. unfold bind.
    destruct (Write d p w) as [[[n e] w1]|] eqn:E; [|discriminate].
    apply IH in E.
    destruct (negb (is_nil e)); [intros [= _ <-]; exact E|].
    destruct (negb (n =? length p)); intros [= _ <-]; exact E.
Qed.

Lemma push_closes dst p w : z_closes (w_gz (push dst p w)) = z_closes (w_gz w).
Proof.
  unfold push. destruct (Write dst p w) as [[r w']|] eqn:E; [|reflexivity].
  apply (Write_closes dst p w r w' E).
Qed.

Lemma push_all_closes dst ps : forall w,
  z_closes (w_gz (push_all dst ps w)) = z_closes (w_gz w).
Proof.
  induction ps as [|p ps IH]; intros w; [reflexivity|].
  cbn [push_all fold_left].
  change (fold_left (fun w p => push dst p w) ps (push dst p w))
    with (push_all dst ps (push dst p w)).
  rewrite IH. apply push_closes.
Qed.

Lemma push_set_pending dst p q w :
  push dst p (set_pending q w) = set_pending q (push dst p w).
Proof.
  unfold push. rewrite Write_set_pending.
  destruct (Write dst p w) as [[r w']|]; reflexivity.
Qed.

Lemma push_all_set_pending dst ps q : forall w,
  push_all dst ps (set_pending q w) = set_pending q (push_all dst ps w).
Proof.
  induction ps as [|p ps IH]; intros w; [reflexivity|].
  cbn [push_all fold_left]. rewrite push_set_pending. apply IH.
Qed.

Lemma set_pending_twice q q' w :
  set_pending q (set_pending q' w) = set_pending q w.
Proof. reflexivity. Qed.

Lemma set_pending_healthy q w : healthy w -> healthy (set_pending q w).
Proof. intros H. exact H. Qed.

(** What a successful write changes. *)

Lemma text_of_ext dst w w' :
  w_dst w = w_dst w' -> w_gz w = w_gz w' -> text_of dst w = text_of dst w'.
Proof.
  intros Hd Hg. induction dst as [| |d IH]; cbn [text_of]; congruence.
Qed.

Lemma push_text dst p : forall w, healthy w ->
  text_of dst (push dst p w) = text_of dst w ++ p.
Proof.
  induction dst as [| |d IH]; intros w [Hr Hz].
  - unfold push. cbn [Write]. unfold io.sink_Write. rewrite Hr.
    cbn [text_of w_dst]. unfold contents. cbn [log].
    rewrite concat_app. cbn. rewrite app_nil_r. reflexivity.
  - unfold push. cbn [Write]. unfold gzip.Write. rewrite Hz.
    destruct (gz_step C (z_state (w_gz w)) p) as [st out].
    destruct out; [reflexivity|].
    unfold io.sink_Write. rewrite Hr. reflexivity.
  - pose proof (Write_healthy d p w (conj Hr Hz)) as [E _].
    specialize (IH w (conj Hr Hz)). unfold push in IH. rewrite E in IH.
    unfold push. cbn [Write]. unfold bind. rewrite E.
    cbn [is_nil negb]. rewrite Nat.eqb_refl. cbn [negb text_of].
    rewrite <- IH. apply text_of_ext; reflexivity.
Qed.

Lemma push_all_text dst ps : forall w, healthy w ->
  text_of dst (push_all dst ps w) = text_of dst w ++ concat ps.
Proof.
  induction ps as [|p ps IH]; intros w H.
  - cbn. rewrite app_nil_r. reflexivity.
  - cbn [push_all fold_left concat].
    change (fold_left (fun w p => push dst p w) ps (push dst p w))
      with (push_all dst ps (push dst p w)).
    rewrite IH by (apply push_healthy, H).
    rewrite push_text by exact H. rewrite app_assoc. reflexivity.
Qed.

Lemma push_sha1 dst p w : healthy w -> simple dst ->
  w_sha1 (push dst p w) = if hashing dst then w_sha1 w ++ p else w_sha1 w.
Proof.
  intros [Hr Hz] Hs. destruct dst as [| |d].
  - unfold push. cbn [Write]. unfold io.sink_Write. rewrite Hr. reflexivity.
  - unfold push. cbn [Write]. unfold gzip.Write. rewrite Hz.
    destruct (gz_step C (z_state (w_gz w)) p) as [st out].
    destruct out; [reflexivity|].
    unfold io.sink_Write. rewrite Hr. reflexivity.
  - pose proof (Write_healthy d p w (conj Hr Hz)) as [E _].
    unfold push. cbn [Write]. unfold bind. rewrite E.
    cbn [is_nil negb]. rewrite Nat.eqb_refl. cbn [negb hashing w_sha1].
    f_equal. destruct d; cbn in Hs; try contradiction.
    + unfold push. cbn [Write]. unfold io.sink_Write. rewrite Hr. reflexivity.
    + unfold push. cbn [Write]. unfold gzip.Write. rewrite Hz.
      destruct (gz_step C (z_state (w_gz w)) p) as [st out].
      destruct out; [reflexivity|].
      unfold io.sink_Write. rewrite Hr. reflexivity.
Qed.

Lemma push_all_sha1 dst ps : forall w, healthy w -> simple dst ->
  w_sha1 (push_all dst ps w)
  = if hashing dst then w_sha1 w ++ concat ps else w_sha1 w.
Proof.
  induction ps as [|p ps IH]; intros w H Hs.
  - cbn. rewrite app_nil_r. destruct (hashing dst); reflexivity.
  - cbn [push_all fold_left concat].
    change (fold_left (fun w p => push dst p w) ps (push dst p w))
      with (push_all dst ps (push dst p w)).
    rewrite IH by (try apply push_healthy; assumption).
    rewrite push_sha1 by assumption.
    destruct (hashing dst); [rewrite app_assoc|]; reflexivity.
Qed.

Lemma push_log dst p w : healthy w -> direct dst ->
  log (w_dst (push dst p w)) = log (w_dst w) ++ [p].
Proof.
  intros [Hr Hz] Hd. destruct dst as [| |[| |d]]; cbn in Hd; try contradiction.
  - unfold push. cbn [Write]. unfold io.sink_Write. rewrite Hr. reflexivity.
  - unfold push. cbn [Write]. unfold bind. cbn [Write].
    unfold io.sink_Write. rewrite Hr. cbn [is_nil negb].
    rewrite Nat.eqb_refl. reflexivity.
Qed.

Lemma push_all_log dst ps : forall w, healthy w -> direct dst ->
  log (w_dst (push_all dst ps w)) = log (w_dst w) ++ ps.
Proof.
  induction ps as [|p ps IH]; intros w H Hd.
  - cbn. rewrite app_nil_r. reflexivity.
  - cbn [push_all fold_left].
    change (fold_left (fun w p => push dst p w) ps (push dst p w))
      with (push_all dst ps (push dst p w)).
    rewrite IH by (try apply push_healthy; assumption).
    rewrite push_log by assumption. rewrite <- app_assoc. reflexivity.
Qed.

End WriteFacts.

Section LoopFacts.
Context {C : Compressor}.
Implicit Types (w : World C) (dst : Writer) (p : list byte).

Lemma div12_step a : (a + 12) / 12 = S (a / 12).
Proof. rewrite <- (Nat.mul_1_l 12) at 1. rewrite Nat.div_add by lia. lia. Qed.

Lemma ceil12_step L : 12 <= L -> (L + 11) / 12 = S ((L - 12 + 11) / 12).
Proof. intros H. rewrite <- div12_step. f_equal. lia. Qed.

Lemma floor12_step L : 12 <= L -> L / 12 = S ((L - 12) / 12).
Proof. intros H. rewrite <- div12_step. f_equal. lia. Qed.

Lemma ceil12_short L : 0 < L < 12 -> (L + 11) / 12 = 1.
Proof.
  intros H. replace (L + 11) with (L - 1 + 12) by lia.
  rewrite div12_step, Nat.div_small by lia. reflexivity.
Qed.

Lemma lines_for_step e L : 12 <= L -> lines_for e L = S (lines_for e (L - 12)).
Proof.
  intros H. unfold lines_for. destruct (clean e).
  - apply ceil12_step, H.
  - apply floor12_step, H.
Qed.

Lemma push_all_cons dst p ps w :
  push_all dst (p :: ps) w = push_all dst ps (push dst p w).
Proof. reflexivity. Qed.

(** The read loop on a destination that accepts everything: one line
    per group of twelve bytes, the last one shorter when the source ends
    cleanly; a source that fails otherwise makes [Embed] return its
    error after the full groups. *)
Lemma read_loop_spec dst fuel : forall w,
  healthy w -> length (pending (w_src w)) < fuel ->
  read_loop fuel dst w
  = Some ((if clean (at_end (w_src w)) then None else Some (at_end (w_src w))),
          set_pending []
            (push_all dst
               (map hex_line
                    (chunks (lines_for (at_end (w_src w))
                                       (length (pending (w_src w))))
                            (pending (w_src w))))
               w)).
Proof.
  induction fuel as [|fuel IH]; intros w H Hfuel; [lia|].
  cbn [read_loop]. unfold bind at 1. rewrite ReadFull_spec.
  set (p := pending (w_src w)) in *. set (e := at_end (w_src w)) in *.
  unfold ReadFull_err, BUF_SIZE.
  destruct (Nat.leb_spec 12 (length p)) as [Hlong|Hshort].
  - (* a full buffer *)
    cbn [is_nil negb andb]. rewrite length_firstn, Nat.min_l by exact Hlong.
    cbn [Nat.eqb]. unfold bind at 1.
    rewrite Fprintf_healthy by exact H.
    cbn [is_nil negb].
    rewrite IH.
    + rewrite push_set_pending. cbn [set_pending w_src pending at_end grain].
      rewrite length_skipn, !push_src. fold e. f_equal. f_equal.
      rewrite (lines_for_step e (length p)) by exact Hlong.
      cbn [chunks map]. rewrite push_all_cons. unfold BUF_SIZE.
      rewrite push_all_set_pending. reflexivity.
    + rewrite push_set_pending. apply push_healthy, H.
    + rewrite push_set_pending. cbn [set_pending w_src pending].
      rewrite length_skipn. lia.
  - rewrite firstn_all2, skipn_all2 by lia.
    destruct p as [|b t] eqn:Ep.
    + (* nothing left *)
      cbn [length Nat.ltb Nat.leb andb]. unfold lines_for. cbn [Nat.add].
      rewrite Nat.div_small, Nat.Div0.div_0_l by lia.
      destruct e; cbn; reflexivity.
    + (* a short buffer *)
      assert (Hl : 0 < length (b :: t) < 12) by (cbn [length] in *; lia).
      destruct (Nat.ltb_spec 0 (length (b :: t))) as [_|]; [|lia].
      cbn [andb]. unfold lines_for.
      rewrite ceil12_short, Nat.div_small by lia.
      assert (Hne : (length (b :: t) =? 0) = false) by (apply Nat.eqb_neq; lia).
      assert (Hne' : (length (b :: t) =? 12) = false) by (apply Nat.eqb_neq; lia).
      destruct e; cbn [error_eqb clean orb is_nil is_err negb andb];
        rewrite ?Hne; unfold bind; rewrite ?Fprintf_healthy by exact H;
        cbn [is_nil negb]; rewrite ?Hne'; cbn [negb chunks map];
        unfold BUF_SIZE; rewrite ?firstn_all2 by lia;
        rewrite ?push_all_cons, ?push_set_pending; reflexivity.
Qed.

Lemma sum_loop_spec dst fuel : forall sum w,
  healthy w -> length sum <= fuel ->
  sum_loop fuel dst sum w
  = Some (None,
          push_all dst (map hex_line (chunks ((length sum + 11) / 12) sum)) w).
Proof.
  induction fuel as [|fuel IH]; intros sum w H Hfuel.
  - destruct sum; [reflexivity | cbn in Hfuel; lia].
  - destruct sum as [|b t]; [reflexivity|].
    cbn [sum_loop]. unfold bind. unfold BUF_SIZE.
    set (s := b :: t) in *.
    assert (Hs : 0 < length s) by (cbn; lia).
    rewrite Fprintf_healthy by exact H. cbn [is_nil negb].
    destruct (Nat.ltb_spec 12 (length s)) as [Hlong|Hshort].
    + rewrite IH; [|apply push_healthy, H | rewrite length_skipn; lia].
      rewrite length_skipn, (ceil12_step (length s)) by lia.
      reflexivity.
    + rewrite IH; [|apply push_healthy, H | rewrite length_skipn; lia].
      rewrite skipn_all, firstn_all. cbn [length Nat.add].
      rewrite (Nat.div_small 11) by lia.
      destruct (Nat.eq_dec (length s) 12) as [E|E].
      * rewrite E. cbn [Nat.add]. replace (23 / 12) with 1 by reflexivity.
        cbn [chunks map]. unfold BUF_SIZE. rewrite <- E, firstn_all. reflexivity.
      * rewrite ceil12_short by lia. cbn [chunks map]. unfold BUF_SIZE.
        rewrite firstn_all2 by lia. reflexivity.
Qed.

End LoopFacts.

Section EmbedFacts.
Variables IsLetter IsNumber : Z -> bool.
Variable C : Compressor.
Implicit Types (w : World C) (p : list byte).

Local Abbreviation main := (Embed_main IsLetter IsNumber C).
Local Abbreviation ident := (identifier IsLetter IsNumber).

Lemma sanitise_identifier name :
  sanitise IsLetter IsNumber name = Some (ident name).
Proof.
  unfold identifier. rewrite sanitise_spec. reflexivity.
Qed.

Lemma wrap_simple flags d : d = File \/ d = Gzip -> simple (wrap flags d).
Proof. unfold wrap. intros [-> | ->]; destruct (sha flags); exact I. Qed.

Lemma wrap_hashing flags d : d = File \/ d = Gzip ->
  hashing (wrap flags d) = sha flags.
Proof. unfold wrap. intros [-> | ->]; destruct (sha flags); reflexivity. Qed.

(** [Embed_main] on a source that ends cleanly and a destination that
    accepts everything. *)
Lemma Embed_main_clean flags d name w :
  d = File \/ d = Gzip ->
  healthy w -> clean (at_end (w_src w)) = true ->
  let id := ident name in
  let data := data_block name id (pending (w_src w)) in
  main flags d name w
  = Some (None,
          set_pending []
            (push_all (wrap flags d)
               (data ++ (if sha flags
                         then hash_block name id
                                (SHA1.Sum (w_sha1 w ++ concat data))
                         else []))
               w)).
Proof.
  intros Hd H Hc id data.
  unfold Embed_main. fold (wrap flags d).
  set (dst := wrap flags d).
  unfold bind at 1. unfold lift. rewrite sanitise_identifier. fold id.
  unfold bind at 1. rewrite Fprintf_healthy by exact H. cbn [is_nil negb].
  unfold bind at 1. unfold bind at 1.
  pose proof (push_healthy dst (data_header name id) w H) as H1.
  rewrite read_loop_spec; [|exact H1 | rewrite push_src; lia].
  rewrite !push_src, Hc. cbn [is_nil negb].
  set (ls := map hex_line _).
  unfold bind at 1.
  assert (H2 : healthy (set_pending [] (push_all dst ls (push dst (data_header name id) w))))
    by (apply set_pending_healthy, push_all_healthy, H1).
  rewrite Fprintf_healthy by exact H2. cbn [is_nil negb].
  assert (Edata : push dst footer
            (set_pending [] (push_all dst ls (push dst (data_header name id) w)))
          = set_pending [] (push_all dst data w)).
  { rewrite push_set_pending. f_equal. unfold data, data_block.
    rewrite push_all_cons, push_all_app. unfold ls, lines_for.
    rewrite Hc. reflexivity. }
  rewrite Edata.
  destruct (sha flags) eqn:Es.
  - unfold bind at 1. unfold bind at 1.
    assert (H3 : healthy (set_pending [] (push_all dst data w)))
      by (apply set_pending_healthy, push_all_healthy, H).
    cbn [set_pending w_sha1].
    rewrite push_all_sha1; [|exact H | apply wrap_simple, Hd].
    replace (hashing dst) with true
      by (symmetry; unfold dst; rewrite wrap_hashing; assumption).
    set (sum := SHA1.Sum _).
    change (mkWorld _ _ _ _) with (set_pending [] (push_all dst data w)).
    rewrite Fprintf_healthy by exact H3. cbn [is_nil negb].
    unfold bind at 1.
    rewrite sum_loop_spec; [|apply push_healthy, H3 | apply le_n].
    cbn [is_nil negb].
    rewrite Fprintf_healthy
      by (apply push_all_healthy, push_healthy, H3).
    f_equal. f_equal.
    rewrite !push_set_pending, push_all_set_pending, push_set_pending.
    f_equal. rewrite push_all_app. unfold hash_block.
    rewrite push_all_cons, push_all_app. reflexivity.
  - rewrite app_nil_r. reflexivity.
Qed.

(** [Embed_main] on a source that fails: the error comes back after the
    header and the lines of the full groups. *)
Lemma Embed_main_read_error flags d name w :
  healthy w -> clean (at_end (w_src w)) = false ->
  main flags d name w
  = Some (Some (at_end (w_src w)),
          set_pending []
            (push_all (wrap flags d)
               (truncated IsLetter IsNumber name (pending (w_src w))) w)).
Proof.
  intros H Hc.
  unfold Embed_main. fold (wrap flags d).
  set (dst := wrap flags d).
  unfold bind at 1. unfold lift. rewrite sanitise_identifier.
  unfold bind at 1. rewrite Fprintf_healthy by exact H. cbn [is_nil negb].
  unfold bind at 1. unfold bind at 1.
  pose proof (push_healthy dst (data_header name (ident name)) w H) as H1.
  rewrite read_loop_spec; [|exact H1 | rewrite push_src; lia].
  rewrite !push_src, Hc. cbn [is_nil negb]. unfold ret.
  unfold lines_for. rewrite Hc. reflexivity.
Qed.

End EmbedFacts.

Section HexFacts.

Lemma unhex_entry b rest :
  unhex ("0"%byte :: "x"%byte :: fmt_02x b ++ rest) = b :: unhex rest.
Proof. destruct b; reflexivity. Qed.

Lemma unhex_skip c rest : c <> "0"%byte -> unhex (c :: rest) = unhex rest.
Proof.
  intros H. cbn [unhex].
  assert (E : Byte.eqb c "0" = false).
  { destruct (Byte.eqb c "0") eqn:E; [|reflexivity].
    apply Byte.byte_dec_bl in E. congruence. }
  rewrite E. destruct rest as [|x [|h [|l rest']]]; reflexivity.
Qed.

Ltac literals :=
  change (str "0x") with ["0"%byte; "x"%byte] in *;
  change (str ", ") with [","%byte; " "%byte] in *;
  change (str ",") with [","%byte] in *;
  change (str " ") with [" "%byte] in *.

Lemma hex_line_spec_line chunk : hex_line chunk = spec_line chunk.
Proof.
  unfold hex_line, spec_line. f_equal. f_equal.
  induction chunk as [|b c IH]; [reflexivity|].
  cbn [flat_map].
  set (data := flat_map _ c) in *.
  destruct c as [|b' c'].
  - unfold hex_entry, fmt_02x. literals. reflexivity.
  - assert (Hd : 6 <= length data).
    { unfold data. cbn [flat_map]. unfold fmt_02x. literals.
      rewrite !length_app. cbn [length]. lia. }
    change (join_entries (map hex_entry (b :: b' :: c')))
      with (hex_entry b ++ str " " ++ join_entries (map hex_entry (b' :: c'))).
    rewrite <- IH. unfold hex_entry, fmt_02x. literals. cbn [app length].
    replace (S (S (S (S (S (S (length data)))))) - 1)
      with (S (S (S (S (S (S (length data - 1))))))) by lia.
    reflexivity.
Qed.

Lemma unhex_join c : forall rest,
  (forall x t, rest = x :: t -> x <> "0"%byte) ->
  unhex (join_entries (map hex_entry c) ++ rest) = c ++ unhex rest.
Proof.
  induction c as [|b c IH]; intros rest Hrest; [reflexivity|].
  destruct c as [|b' c'].
  - change (join_entries (map hex_entry [b])) with (hex_entry b).
    unfold hex_entry. literals. rewrite <- !app_assoc. cbn [app].
    rewrite unhex_entry, unhex_skip by discriminate. reflexivity.
  - change (join_entries (map hex_entry (b :: b' :: c')))
      with (hex_entry b ++ str " " ++ join_entries (map hex_entry (b' :: c'))).
    unfold hex_entry at 1. literals. rewrite <- !app_assoc. cbn [app].
    rewrite unhex_entry, !unhex_skip by discriminate.
    rewrite (IH rest Hrest). reflexivity.
Qed.

End HexFacts.

Section LineFacts.

Lemma unhex_hex_line c rest :
  (forall x t, rest = x :: t -> x <> "0"%byte) ->
  unhex (hex_line c ++ rest) = c ++ unhex rest.
Proof.
  intros Hrest. rewrite hex_line_spec_line. unfold spec_line.
  rewrite <- !app_assoc. unfold TAB. cbn [app].
  rewrite unhex_skip by discriminate.
  rewrite unhex_join.
  - unfold NL. cbn [app]. rewrite unhex_skip by discriminate. reflexivity.
  - unfold NL. intros x t [= <- _]. discriminate.
Qed.

Lemma hex_line_head c : exists t, hex_line c = x09 :: t.
Proof. unfold hex_line, TAB. eexists. reflexivity. Qed.

Lemma unhex_lines cs : forall rest,
  (forall x t, rest = x :: t -> x <> "0"%byte) ->
  unhex (concat (map hex_line cs) ++ rest) = concat cs ++ unhex rest.
Proof.
  induction cs as [|c cs IH]; intros rest Hrest; [reflexivity|].
  cbn [map concat]. rewrite <- !app_assoc. rewrite unhex_hex_line.
  - rewrite IH by exact Hrest. reflexivity.
  - intros x t E. destruct cs as [|c' cs'].
    + cbn in E. apply (Hrest x t E).
    + cbn [map concat] in E. destruct (hex_line_head c') as [t' Ht'].
      rewrite Ht' in E. cbn in E. injection E as <- _. discriminate.
Qed.

Lemma entries_hex_line c : entries (hex_line c) = length c.
Proof.
  unfold entries. rewrite <- (app_nil_r (hex_line c)).
  rewrite unhex_hex_line by discriminate. cbn. rewrite app_nil_r. reflexivity.
Qed.

Lemma chunks_length k : forall d, length (chunks k d) = k.
Proof. induction k as [|k IH]; intros d; [reflexivity|]. cbn. rewrite IH. reflexivity. Qed.

Lemma chunks_concat k : forall d, length d <= 12 * k -> concat (chunks k d) = d.
Proof.
  induction k as [|k IH]; intros d H.
  - destruct d; [reflexivity | cbn in H; lia].
  - cbn [chunks concat]. unfold BUF_SIZE. rewrite IH.
    + apply firstn_skipn.
    + rewrite length_skipn. lia.
Qed.

Lemma chunks_nth k : forall d i, i < k ->
  nth i (chunks k d) [] = firstn 12 (skipn (12 * i) d).
Proof.
  induction k as [|k IH]; intros d i Hi; [lia|].
  cbn [chunks]. destruct i as [|i]; [reflexivity|].
  cbn [nth]. rewrite IH by lia. unfold BUF_SIZE. rewrite skipn_skipn.
  f_equal. f_equal. lia.
Qed.

Lemma ceil12_spec L :
  (L + 11) / 12 = L / 12 + (if L mod 12 =? 0 then 0 else 1).
Proof.
  pose proof (Nat.div_mod_eq L 12) as E.
  pose proof (Nat.mod_upper_bound L 12 ltac:(lia)) as B.
  destruct (Nat.eqb_spec (L mod 12) 0) as [Hz|Hnz].
  - symmetry. apply Nat.div_unique with (r := 11); lia.
  - symmetry. apply Nat.div_unique with (r := L mod 12 - 1); lia.
Qed.

(** The sizes of the groups: twelve bytes each, except that the last
    holds the remainder when the length is not a multiple of twelve. *)
Lemma chunk_size d i : i < (length d + 11) / 12 ->
  length (nth i (chunks ((length d + 11) / 12) d) [])
  = if (S i =? (length d + 11) / 12) && negb (length d mod 12 =? 0)
    then length d mod 12 else 12.
Proof.
  intros Hi. rewrite chunks_nth by exact Hi.
  rewrite length_firstn, length_skipn.
  rewrite ceil12_spec in *.
  pose proof (Nat.div_mod_eq (length d) 12) as E.
  pose proof (Nat.mod_upper_bound (length d) 12 ltac:(lia)) as B.
  destruct (Nat.eqb_spec (length d mod 12) 0) as [Hz|Hnz]; cbn [negb].
  - rewrite andb_false_r. lia.
  - rewrite andb_true_r.
    destruct (Nat.eqb_spec (S i) (length d / 12 + 1)); lia.
Qed.

End LineFacts.

Section GzipFacts.
Variable C : Compressor.
Implicit Types (w : World C) (p : list byte).

(** What a write through the gzip writer changes. *)
Lemma push_gz flags p w : healthy w ->
  w_gz (push (wrap flags Gzip) p w)
  = mkGzWriter (fst (gz_step C (z_state (w_gz w)) p)) None
               (z_closed (w_gz w)) (z_absorbed (w_gz w) ++ p)
               (z_closes (w_gz w))
  /\ contents (w_dst (push (wrap flags Gzip) p w))
     = contents (w_dst w) ++ snd (gz_step C (z_state (w_gz w)) p).
Proof.
  intros [Hr Hz]. unfold wrap, push.
  destruct (sha flags); cbn [Write]; unfold bind; cbn [Write];
    unfold gzip.Write; rewrite Hz;
    destruct (gz_step C (z_state (w_gz w)) p) as [st out];
    (destruct out as [|b out];
     [ cbn; rewrite ?Nat.eqb_refl; cbn; rewrite app_nil_r; split; reflexivity
     | unfold io.sink_Write; rewrite Hr; cbn; rewrite ?Nat.eqb_refl; cbn;
       split; [reflexivity|];
       unfold contents; cbn [log]; rewrite concat_app; cbn;
       rewrite app_nil_r; reflexivity ]).
Qed.

Lemma push_all_gz flags ps : forall w, healthy w ->
  z_state (w_gz (push_all (wrap flags Gzip) ps w))
  = fst (gz_feed C (z_state (w_gz w)) ps)
  /\ contents (w_dst (push_all (wrap flags Gzip) ps w))
     = contents (w_dst w) ++ snd (gz_feed C (z_state (w_gz w)) ps)
  /\ z_closed (w_gz (push_all (wrap flags Gzip) ps w)) = z_closed (w_gz w)
  /\ z_closes (w_gz (push_all (wrap flags Gzip) ps w)) = z_closes (w_gz w).
Proof.
  induction ps as [|p ps IH]; intros w H.
  - cbn. rewrite app_nil_r. repeat split; reflexivity.
  - rewrite push_all_cons.
    destruct (push_gz flags p w H) as [Eg Ec].
    destruct (IH (push (wrap flags Gzip) p w) (push_healthy _ _ _ H))
      as (I1 & I2 & I3 & I4).
    rewrite I1, I2, I3, I4, Eg, Ec. cbn [z_state z_closed z_closes gz_feed].
    destruct (gz_step C (z_state (w_gz w)) p) as [st out]. cbn [fst snd].
    destruct (gz_feed C st ps) as [st2 outs]. cbn [fst snd].
    rewrite app_assoc. repeat split; reflexivity.
Qed.

(** Closing a gzip writer that has not failed and is still open. *)
Lemma Close_healthy w : healthy w -> z_closed (w_gz w) = false ->
  exists w', gzip.Close w = Some (None, w')
    /\ contents (w_dst w') = contents (w_dst w) ++ gz_fin C (z_state (w_gz w))
    /\ z_closes (w_gz w') = S (z_closes (w_gz w))
    /\ z_absorbed (w_gz w') = z_absorbed (w_gz w)
    /\ w_sha1 w' = w_sha1 w.
Proof.
  intros [Hr Hz] Hc. unfold gzip.Close. rewrite Hz, Hc.
  unfold io.sink_Write. rewrite Hr. eexists. split; [reflexivity|].
  cbn. unfold contents. cbn [log]. rewrite concat_app. cbn.
  rewrite app_nil_r. repeat split; reflexivity.
Qed.

End GzipFacts.

Section EmbedUnbounded.
Variables IsLetter IsNumber : Z -> bool.
Variable C : Compressor.

Local Abbreviation embed := (Embed IsLetter IsNumber C).
Local Abbreviation written' := (written IsLetter IsNumber).

Lemma start_healthy src l0 f : healthy (start C src (mkSink l0 None f)).
Proof. split; reflexivity. Qed.

Lemma main_unbounded flags d name data e g l0 f :
  d = File \/ d = Gzip ->
  Embed_main IsLetter IsNumber C flags d name
             (start C (mkReader data e g) (mkSink l0 None f))
  = Some ((if clean e then None else Some e),
          set_pending []
            (push_all (wrap flags d) (written' flags name e data)
                      (start C (mkReader data e g) (mkSink l0 None f)))).
Proof.
  intros Hd. unfold written. destruct (clean e) eqn:Hc.
  - rewrite Embed_main_clean by (try apply start_healthy; assumption).
    reflexivity.
  - rewrite Embed_main_read_error by (try apply start_healthy; assumption).
    reflexivity.
Qed.

(** [Embed] without [-gzip] on a destination that accepts everything:
    the result and the writes that reach the file. *)
Lemma Embed_plain hash name data e g l0 f :
  exists w',
    embed (mkFlags false hash) name
          (start C (mkReader data e g) (mkSink l0 None f))
    = Some ((if clean e then None else Some e), w')
    /\ log (w_dst w') = l0 ++ written' (mkFlags false hash) name e data
    /\ w_sha1 w'
       = (if hash then concat (written' (mkFlags false hash) name e data)
          else [])
    /\ z_closes (w_gz w') = 0.
Proof.
  unfold Embed. cbn [compress].
  rewrite main_unbounded by (left; reflexivity).
  eexists. split; [reflexivity|].
  cbn [set_pending w_dst w_sha1 w_gz].
  pose proof (start_healthy (mkReader data e g) l0 f) as H.
  split; [|split].
  - rewrite push_all_log; [reflexivity | exact H |].
    unfold wrap. cbn [sha]. destruct hash; exact I.
  - rewrite push_all_sha1; [| exact H | apply wrap_simple; left; reflexivity].
    rewrite wrap_hashing by (left; reflexivity). cbn [sha].
    destruct hash; reflexivity.
  - rewrite push_all_closes. reflexivity.
Qed.

(** [Embed] with [-gzip] on a destination that accepts everything: the
    text goes into the compressor, the file receives the compressed
    stream, and the writer is closed once. *)
Lemma Embed_gzip hash name data e g l0 f :
  exists w',
    embed (mkFlags true hash) name
          (start C (mkReader data e g) (mkSink l0 None f))
    = Some ((if clean e then None else Some e), w')
    /\ z_absorbed (w_gz w') = concat (written' (mkFlags true hash) name e data)
    /\ contents (w_dst w')
       = concat l0 ++ compressed C (written' (mkFlags true hash) name e data)
    /\ w_sha1 w'
       = (if hash then concat (written' (mkFlags true hash) name e data)
          else [])
    /\ z_closes (w_gz w') = 1.
Proof.
  unfold Embed. cbn [compress].
  change (gzip.NewWriterLevel gzip.BestCompression) with (@None error).
  unfold bind at 1. rewrite main_unbounded by (right; reflexivity).
  set (ps := written' (mkFlags true hash) name e data).
  set (w0 := start C (mkReader data e g) (mkSink l0 None f)).
  pose proof (start_healthy (mkReader data e g) l0 f) as H0. fold w0 in H0.
  pose proof (push_all_healthy (wrap (mkFlags true hash) Gzip) ps w0 H0) as H1.
  destruct (push_all_gz C (mkFlags true hash) ps w0 H0) as (G1 & G2 & G3 & G4).
  destruct (Close_healthy C (set_pending [] (push_all (wrap (mkFlags true hash) Gzip) ps w0)))
    as (w' & Ec & Q1 & Q2 & Q3 & Q4); [exact H1 | exact G3 |].
  unfold bind. rewrite Ec. unfold ret.
  exists w'. split.
  { destruct (clean e); reflexivity. }
  cbn [set_pending w_dst w_gz w_sha1] in Q1, Q2, Q3, Q4.
  split; [|split; [|split]].
  - rewrite Q3.
    pose proof (push_all_text (wrap (mkFlags true hash) Gzip) ps w0 H0) as T.
    unfold wrap in T. cbn [sha] in T. unfold wrap. cbn [sha].
    destruct hash; exact T.
  - rewrite Q1, G2, G1. unfold compressed. cbn [w0 start w_gz z_state w_dst].
    destruct (gz_feed C (gz_init C) ps) as [st out]. cbn [fst snd].
    unfold contents at 1. cbn [log]. rewrite app_assoc. reflexivity.
  - rewrite Q4.
    rewrite push_all_sha1; [| exact H0 | apply wrap_simple; right; reflexivity].
    rewrite wrap_hashing by (right; reflexivity). cbn [sha].
    destruct hash; reflexivity.
  - rewrite Q2, G4. reflexivity.
Qed.

(** On a destination that accepts everything the text that goes through
    [dst] is the concatenation of [written], with or without [-gzip]. *)
Lemma Embed_text flags name data e g f :
  exists w',
    embed flags name (start C (mkReader data e g) (mkSink [] None f))
    = Some ((if clean e then None else Some e), w')
    /\ text_of (chain flags) w' = concat (written' flags name e data)
    /\ w_sha1 w' = (if sha flags then concat (written' flags name e data)
                    else []).
Proof.
  destruct flags as [c h]. destruct c.
  - destruct (Embed_gzip h name data e g [] f) as (w' & E & A & _ & S & _).
    exists w'. split; [exact E|]. split; [|exact S].
    unfold chain, wrap. cbn [compress sha]. destruct h; exact A.
  - destruct (Embed_plain h name data e g [] f) as (w' & E & L & S & _).
    exists w'. split; [exact E|]. split; [|exact S].
    unfold chain, wrap. cbn [compress sha].
    destruct h; cbn [text_of]; unfold contents; rewrite L; reflexivity.
Qed.

End EmbedUnbounded.

Section AnyWorld.
Variables IsLetter IsNumber : Z -> bool.
Variable C : Compressor.
Implicit Types (w : World C) (dst : Writer) (p : list byte).

Lemma keeps_ret {A} (a : A) w : keeps (ret a) w.
Proof. exists a, w. split; reflexivity. Qed.

Lemma keeps_bind {A B} (m : M C A) (f : A -> M C B) w :
  keeps m w ->
  (forall a w', m w = Some (a, w') -> keeps (f a) w') ->
  keeps (bind m f) w.
Proof.
  intros (a & w1 & E & K) Hf. destruct (Hf a w1 E) as (b & w2 & E2 & K2).
  exists b, w2. unfold bind. rewrite E. split; [exact E2 | congruence].
Qed.

Lemma Fprintf_keeps dst p w : keeps (Fprintf dst p) w.
Proof.
  destruct (Write_total dst p w) as (r & w' & E).
  exists (snd r), w'. unfold Fprintf, bind. rewrite E.
  split; [reflexivity | apply (Write_closes dst p w r w' E)].
Qed.

Lemma Fprintf_src dst p w e w' :
  Fprintf dst p w = Some (e, w') -> w_src w' = w_src w.
Proof.
  unfold Fprintf, bind. destruct (Write dst p w) as [[r w1]|] eqn:E; [|discriminate].
  intros [= _ <-]. apply (Write_src dst p w r w1 E).
Qed.

Lemma read_loop_keeps dst fuel : forall w,
  length (pending (w_src w)) < fuel -> keeps (read_loop fuel dst) w.
Proof.
  induction fuel as [|fuel IH]; intros w Hfuel; [lia|].
  cbn [read_loop]. apply keeps_bind.
  { unfold keeps. rewrite ReadFull_spec. eexists _, _. split; reflexivity. }
  intros [buf err] w1 E. rewrite ReadFull_spec in E.
  assert (Hb : buf = firstn BUF_SIZE (pending (w_src w))) by congruence.
  assert (Hw : w1 = set_pending (skipn BUF_SIZE (pending (w_src w))) w) by congruence.
  clear E.
  match goal with |- context [if ?c then _ else _] => destruct c end;
    [apply keeps_ret|].
  destruct (length buf =? 0); [apply keeps_ret|].
  apply keeps_bind; [apply Fprintf_keeps|].
  intros err2 w2 E2.
  destruct (negb (is_nil err2)); [apply keeps_ret|].
  destruct (Nat.eqb_spec (length buf) BUF_SIZE) as [E12|];
    cbn [negb]; [|apply keeps_ret].
  apply IH. rewrite (Fprintf_src _ _ _ _ _ E2). subst w1 buf.
  cbn [set_pending w_src pending]. rewrite length_skipn.
  rewrite length_firstn in E12. unfold BUF_SIZE in *. lia.
Qed.

Lemma sum_loop_keeps dst fuel : forall sum w,
  length sum <= fuel -> keeps (sum_loop fuel dst sum) w.
Proof.
  induction fuel as [|fuel IH]; intros sum w Hfuel.
  - destruct sum; [apply keeps_ret | cbn in Hfuel; lia].
  - destruct sum as [|b t]; [apply keeps_ret|].
    cbn [sum_loop]. apply keeps_bind; [apply Fprintf_keeps|].
    intros err w1 _. destruct (negb (is_nil err)); [apply keeps_ret|].
    apply IH. rewrite length_skipn. unfold BUF_SIZE.
    destruct (12 <? length (b :: t)); cbn [length] in *; lia.
Qed.

(** [Embed_main] returns in every state and never closes the gzip
    writer. *)
Lemma Embed_main_keeps flags d name w :
  keeps (Embed_main IsLetter IsNumber C flags d name) w.
Proof.
  unfold Embed_main. apply keeps_bind.
  { unfold keeps, lift. rewrite sanitise_spec. eexists _, _. split; reflexivity. }
  intros id w1. unfold lift. rewrite sanitise_spec. intros [= <- <-].
  apply keeps_bind; [apply Fprintf_keeps|].
  intros err w1 _. destruct (negb (is_nil err)); [apply keeps_ret|].
  apply keeps_bind; [eexists _, _; split; reflexivity|].
  intros fuel w2 [= <- <-].
  apply keeps_bind; [apply read_loop_keeps; lia|].
  intros err2 w2 _. destruct (negb (is_nil err2)); [apply keeps_ret|].
  apply keeps_bind; [apply Fprintf_keeps|].
  intros err3 w3 _. destruct (negb (is_nil err3)); [apply keeps_ret|].
  destruct (sha flags); [|apply keeps_ret].
  apply keeps_bind; [eexists _, _; split; reflexivity|].
  intros sum w4 [= <- <-].
  apply keeps_bind; [apply Fprintf_keeps|].
  intros err4 w4 _. destruct (negb (is_nil err4)); [apply keeps_ret|].
  apply keeps_bind; [apply sum_loop_keeps, le_n|].
  intros err5 w5 _. destruct (negb (is_nil err5)); [apply keeps_ret|].
  apply Fprintf_keeps.
Qed.

Lemma Close_counts w :
  exists e w', gzip.Close w = Some (e, w')
    /\ z_closes (w_gz w') = S (z_closes (w_gz w)).
Proof.
  unfold gzip.Close. destruct (z_err (w_gz w)).
  - eexists _, _. split; reflexivity.
  - destruct (z_closed (w_gz w)).
    + eexists _, _. split; reflexivity.
    + destruct (io.sink_Write (w_dst w) (gz_fin C (z_state (w_gz w))))
        as [[n e] s].
      eexists _, _. split; reflexivity.
Qed.

(** [Embed] returns in every state: the fuel of its loops suffices. *)
Lemma Embed_total flags name w :
  exists e w', Embed IsLetter IsNumber C flags name w = Some (e, w').
Proof.
  unfold Embed. destruct (compress flags).
  - change (gzip.NewWriterLevel gzip.BestCompression) with (@None error).
    destruct (Embed_main_keeps flags Gzip name w) as (e1 & w1 & E1 & _).
    destruct (Close_counts w1) as (e2 & w2 & E2 & _).
    unfold bind. rewrite E1, E2. unfold ret. eauto.
  - destruct (Embed_main_keeps flags File name w) as (e1 & w1 & E1 & _).
    eauto.
Qed.

(** C8: with [-gzip], from any state of the source, the destination and
    the writer, [Embed] returns after its main part and exactly one
    [Close] of the gzip writer; it returns the error of the main part if
    there is one and the error of [Close] otherwise. *)
Theorem Embed_closes_gzip_once (hash : bool) (name : list byte) (w : World C) :
  exists main_err w1 close_err w2,
    Embed_main IsLetter IsNumber C (mkFlags true hash) Gzip name w
    = Some (main_err, w1)
    /\ gzip.Close w1 = Some (close_err, w2)
    /\ Embed IsLetter IsNumber C (mkFlags true hash) name w
       = Some (match main_err with
               | Some e => Some e
               | None => close_err
               end, w2)
    /\ z_closes (w_gz w1) = z_closes (w_gz w)
    /\ z_closes (w_gz w2) = S (z_closes (w_gz w)).
Proof.
  destruct (Embed_main_keeps (mkFlags true hash) Gzip name w)
    as (main_err & w1 & Em & K1).
  destruct (Close_counts w1) as (close_err & w2 & Ec & K2).
  exists main_err, w1, close_err, w2.
  split; [exact Em|]. split; [exact Ec|]. split; [|split; [exact K1 | congruence]].
  unfold Embed. cbn [compress].
  change (gzip.NewWriterLevel gzip.BestCompression) with (@None error).
  unfold bind. rewrite Em, Ec. unfold ret.
  destruct main_err, close_err; reflexivity.
Qed.

End AnyWorld.

Lemma chunk_lengths k : forall d, (length d + 11) / 12 = k ->
  map (@length byte) (chunks k d)
  = repeat 12 (length d / 12)
    ++ (if length d mod 12 =? 0 then [] else [length d mod 12]).
Proof.
  induction k as [|k IH]; intros d Hk.
  - rewrite ceil12_spec in Hk.
    destruct (Nat.eqb_spec (length d mod 12) 0); cbv iota in Hk;
      [|rewrite Nat.add_1_r in Hk; discriminate].
    rewrite Nat.add_0_r in Hk. rewrite Hk. reflexivity.
  - cbn [chunks map]. unfold BUF_SIZE.
    destruct (Nat.le_gt_cases 12 (length d)) as [Hlong|Hshort].
    + rewrite IH.
      * rewrite length_skipn, length_firstn, Nat.min_l by exact Hlong.
        rewrite (floor12_step (length d)) by exact Hlong.
        replace ((length d - 12) mod 12) with (length d mod 12).
        -- reflexivity.
        -- pose proof (Nat.div_mod_eq (length d) 12) as E1.
           pose proof (Nat.mod_upper_bound (length d) 12 ltac:(lia)) as E2.
           pose proof (floor12_step (length d) Hlong) as E3.
           apply Nat.mod_unique with (q := (length d - 12) / 12).
           ++ exact E2.
           ++ rewrite E3 in E1. lia.
      * rewrite length_skipn. rewrite (ceil12_step (length d)) in Hk by exact Hlong.
        lia.
    + assert (k = 0).
      { destruct (Nat.eq_dec (length d) 0) as [E|E].
        - rewrite E in Hk. cbn in Hk. discriminate.
        - rewrite ceil12_short in Hk by lia. lia. }
      subst k. cbn [chunks map].
      rewrite firstn_all2 by lia.
      rewrite Nat.div_small, Nat.mod_small by lia. cbn [repeat app].
      destruct (Nat.eqb_spec (length d) 0); [|reflexivity].
      rewrite e in Hk. cbn in Hk. discriminate.
Qed.

Lemma fmt_02x_digits b :
  exists h l, fmt_02x b = [h; l]
    /\ hexval h = Some (b2z b / 16)%Z /\ hexval l = Some (b2z b mod 16)%Z.
Proof. destruct b; eexists _, _; repeat split; reflexivity. Qed.

(** C7: without [-gzip], for an input of [L] bytes the data declaration
    is the header, [(L + 11) / 12] lines and the closing brace; the lines
    hold twelve entries each, except that a last line holds [L mod 12]
    entries when that is not zero; an empty input gives no line. *)
Theorem data_block_chunking (IsLetter IsNumber : Z -> bool) (C : Compressor)
    (hash : bool) (name data : list byte) (g : nat) :
  exists id lines rest w',
    sanitise IsLetter IsNumber name = Some id
    /\ Embed IsLetter IsNumber C (mkFlags false hash) name
             (start C (mkReader data EOF g) file)
       = Some (None, w')
    /\ log (w_dst w') = [data_header name id] ++ lines ++ [footer] ++ rest
    /\ length lines = (length data + 11) / 12
    /\ map entries lines
       = repeat 12 (length data / 12)
         ++ (if length data mod 12 =? 0 then [] else [length data mod 12])
    /\ (if length data =? 0 then lines = [] else 0 < length lines)
    /\ (if hash then True else rest = []).
Proof.
  destruct (Embed_plain IsLetter IsNumber C hash name data EOF g [] (Err 28))
    as (w' & E & L & _ & _).
  exists (identifier IsLetter IsNumber name).
  exists (map hex_line (chunks ((length data + 11) / 12) data)).
  exists (if hash
          then hash_block name (identifier IsLetter IsNumber name)
                 (SHA1.Sum (concat (data_block name
                                      (identifier IsLetter IsNumber name) data)))
          else []).
  exists w'.
  split; [apply sanitise_identifier|].
  split; [exact E|].
  split.
  { rewrite L. unfold written, output. cbn [clean error_eqb orb sha app].
    unfold data_block. cbn [app]. rewrite <- app_assoc. reflexivity. }
  split; [rewrite length_map; apply chunks_length|].
  split.
  { rewrite map_map. rewrite (map_ext _ (@length byte)) by apply entries_hex_line.
    apply chunk_lengths. reflexivity. }
  split.
  - destruct (Nat.eqb_spec (length data) 0) as [E0|E0].
    + rewrite E0. reflexivity.
    + rewrite length_map, chunks_length, ceil12_spec.
      pose proof (Nat.div_mod_eq (length data) 12) as Ed.
      destruct (Nat.eqb_spec (length data mod 12) 0) as [Em|Em]; [|lia].
      rewrite Em in Ed. destruct (length data / 12); lia.
  - destruct hash; [exact I | reflexivity].
Qed.

(** C3 (amended): without [-gzip] and [-sha1] every data line is a tab,
    the entries [0xhh,] of its bytes (two lower-case hex digits each)
    separated by single spaces, and a newline: only the space after the
    last entry is trimmed and its comma stays.  For the input "ABC"
    named "test.txt" the line reads [0x41, 0x42, 0x43,]. *)
Theorem data_lines_format (IsLetter IsNumber : Z -> bool) (C : Compressor)
    (name data : list byte) (g : nat) :
  (exists id w',
     sanitise IsLetter IsNumber name = Some id
     /\ Embed IsLetter IsNumber C (mkFlags false false) name
              (start C (mkReader data EOF g) file)
        = Some (None, w')
     /\ log (w_dst w')
        = [data_header name id]
          ++ map spec_line (chunks ((length data + 11) / 12) data)
          ++ [footer])
  /\ (forall b, exists h l, fmt_02x b = [h; l]
        /\ hexval h = Some (b2z b / 16)%Z /\ hexval l = Some (b2z b mod 16)%Z)
  /\ (exists w',
        Embed unicode.IsLetter unicode.IsNumber C (mkFlags false false)
              (str "test.txt") (start C (plain (str "ABC")) file)
        = Some (None, w')
        /\ map content (lines (contents (w_dst w')))
           = [ []; str "// test.txt"; str "var test_txt = []byte{";
               str "0x41, 0x42, 0x43,"; str "}" ]).
Proof.
  split; [|split].
  - destruct (Embed_plain IsLetter IsNumber C false name data EOF g [] (Err 28))
      as (w' & E & L & _ & _).
    exists (identifier IsLetter IsNumber name), w'.
    split; [apply sanitise_identifier|]. split; [exact E|].
    rewrite L. unfold written, output. cbn [clean error_eqb orb sha app].
    unfold data_block. rewrite app_nil_r. cbn [app].
    rewrite (map_ext _ _ hex_line_spec_line). reflexivity.
  - apply fmt_02x_digits.
  - destruct (Embed_plain unicode.IsLetter unicode.IsNumber C false
                (str "test.txt") (str "ABC") EOF 11 [] (Err 28))
      as (w' & E & L & _ & _).
    exists w'. split; [exact E|].
    unfold contents. rewrite L. vm_compute. reflexivity.
Qed.

(** C3 (as stated) fails: for "ABC" the output has no line whose content
    is [0x41, 0x42, 0x43]; the line ends with a comma. *)
Lemma data_line_keeps_comma_counterexample :
  exists w',
    Embed unicode.IsLetter unicode.IsNumber buffering (mkFlags false false)
          (str "test.txt") (start buffering (plain (str "ABC")) file)
    = Some (None, w')
    /\ ~ In (str "0x41, 0x42, 0x43") (map content (lines (contents (w_dst w'))))
    /\ In (str "0x41, 0x42, 0x43,") (map content (lines (contents (w_dst w')))).
Proof.
  eexists. split; [vm_compute; reflexivity|].
  split.
  - vm_compute. intros H.
    repeat (destruct H as [H|H]; [discriminate H|]). exact H.
  - vm_compute. tauto.
Qed.

(** X6: the literal reads back as the input bytes, whatever the flags: the
    text that goes through [dst] is the header, a block of lines that
    decodes to the raw input, the closing brace and the digest
    declaration if any. *)
Lemma literal_round_trip (IsLetter IsNumber : Z -> bool) (C : Compressor)
    (flags : Flags) (name data : list byte) (g : nat) :
  exists id block rest w',
    sanitise IsLetter IsNumber name = Some id
    /\ Embed IsLetter IsNumber C flags name (start C (mkReader data EOF g) file)
       = Some (None, w')
    /\ text_of (chain flags) w' = data_header name id ++ block ++ footer ++ rest
    /\ unhex block = data.
Proof.
  destruct (Embed_text IsLetter IsNumber C flags name data EOF g (Err 28))
    as (w' & E & T & _).
  exists (identifier IsLetter IsNumber name).
  exists (concat (map hex_line (chunks ((length data + 11) / 12) data))).
  exists (concat (if sha flags
                  then hash_block name (identifier IsLetter IsNumber name)
                         (SHA1.Sum (concat (data_block name
                            (identifier IsLetter IsNumber name) data)))
                  else [])).
  exists w'.
  split; [apply sanitise_identifier|]. split; [exact E|]. split.
  - rewrite T. unfold written, output. cbn [clean error_eqb orb].
    rewrite concat_app. unfold data_block. cbn [concat].
    rewrite concat_app. cbn [concat]. rewrite app_nil_r, <- !app_assoc.
    reflexivity.
  - rewrite <- (app_nil_r (concat _)). rewrite unhex_lines by discriminate.
    cbn [unhex]. rewrite app_nil_r. apply chunks_concat.
    pose proof (Nat.div_mod_eq (length data + 11) 12).
    pose proof (Nat.mod_upper_bound (length data + 11) 12 ltac:(lia)). lia.
Qed.

(** C1 (the code departs from it): with [-sha1] the digest that [Embed]
    emits is the SHA1 of the text it generated so far, here for the
    input "ABC" named "test.txt", with or without [-gzip]; it is neither
    the SHA1 of the input bytes nor computed from compressed bytes. *)
Theorem digest_of_generated_text (C : Compressor) (gz : bool) :
  exists w',
    Embed unicode.IsLetter unicode.IsNumber C (mkFlags gz true)
          (str "test.txt") (start C (plain (str "ABC")) file)
    = Some (None, w')
    /\ text_of (chain (mkFlags gz true)) w'
       = abc_text
         ++ hash_header (str "test.txt") (str "test_txt")
         ++ hex_line (firstn 12 (SHA1.Sum abc_text))
         ++ hex_line (skipn 12 (SHA1.Sum abc_text))
         ++ footer
    /\ unhex (hex_line (firstn 12 (SHA1.Sum abc_text))
              ++ hex_line (skipn 12 (SHA1.Sum abc_text)))
       = SHA1.Sum abc_text
    /\ SHA1.Sum abc_text
       = [x51; x38; xa1; xa1; xac; x12; x0e; x57; x42; xc9;
          x8d; xee; xd8; x64; x04; xd5; x24; x91; x76; x0e]
    /\ SHA1.Sum (str "ABC")
       = [x3c; x01; xbd; xbb; x26; xf3; x58; xba; xb2; x7f;
          x26; x79; x24; xaa; x2c; x9a; x03; xfc; xfd; xb8]
    /\ SHA1.Sum abc_text <> SHA1.Sum (str "ABC").
Proof.
  destruct (Embed_text unicode.IsLetter unicode.IsNumber C (mkFlags gz true)
              (str "test.txt") (str "ABC") EOF 11 (Err 28))
    as (w' & E & T & _).
  exists w'. split; [exact E|]. split.
  { rewrite T. destruct gz; vm_compute; reflexivity. }
  split; [vm_compute; reflexivity|].
  split; [vm_compute; reflexivity|].
  split; [vm_compute; reflexivity|].
  vm_compute. discriminate.
Qed.

(** C2 (the code departs from it): with [-gzip] the literal still holds
    the raw input, here the three bytes of "ABC"; what is compressed is the
    generated text, and the compressed text is what the file receives. *)
Theorem gzip_literal_holds_raw_input (C : Compressor) :
  exists w',
    Embed unicode.IsLetter unicode.IsNumber C (mkFlags true false)
          (str "test.txt") (start C (plain (str "ABC")) file)
    = Some (None, w')
    /\ z_absorbed (w_gz w') = abc_text
    /\ unhex (TAB ++ str "0x41, 0x42, 0x43," ++ NL) = str "ABC"
    /\ contents (w_dst w')
       = compressed C
           [data_header (str "test.txt") (str "test_txt");
            TAB ++ str "0x41, 0x42, 0x43," ++ NL;
            footer].
Proof.
  destruct (Embed_gzip unicode.IsLetter unicode.IsNumber C false
              (str "test.txt") (str "ABC") EOF 11 [] (Err 28))
    as (w' & E & A & D & _).
  exists w'. split; [exact E|]. split; [rewrite A; vm_compute; reflexivity|].
  split; [vm_compute; reflexivity|].
  rewrite D. reflexivity.
Qed.

(** C9: on a destination that accepts everything [Embed] returns nil
    when the source ends with [io.EOF] or [io.ErrUnexpectedEOF], after
    one line per group of twelve bytes, a shorter last line for the
    remaining bytes, and the closing brace, the same text in both cases;
    any other read error is returned, after the lines of the full
    groups. *)
Theorem read_loop_end_of_stream (IsLetter IsNumber : Z -> bool)
    (C : Compressor) (flags : Flags) (name data : list byte) (e : error)
    (g : nat) :
  exists w',
    Embed IsLetter IsNumber C flags name (start C (mkReader data e g) file)
    = Some (match e with
            | EOF | ErrUnexpectedEOF => None
            | _ => Some e
            end, w')
    /\ text_of (chain flags) w'
       = concat (match e with
                 | EOF | ErrUnexpectedEOF =>
                   data_block name (identifier IsLetter IsNumber name) data
                   ++ (if sha flags
                       then hash_block name (identifier IsLetter IsNumber name)
                              (SHA1.Sum (concat (data_block name
                                 (identifier IsLetter IsNumber name) data)))
                       else [])
                 | _ =>
                   data_header name (identifier IsLetter IsNumber name)
                   :: map hex_line (chunks (length data / 12) data)
                 end).
Proof.
  destruct (Embed_text IsLetter IsNumber C flags name data e g (Err 28))
    as (w' & E & T & _).
  exists w'. split.
  - unfold file. rewrite E. destruct e; reflexivity.
  - rewrite T. destruct e; reflexivity.
Qed.

(** Exit paths of [Embed] with [-gzip] on the buffering compressor:
    success, a failing read, a failing write in the main part, and a
    failing [Close] after a main part that succeeded; the writer is closed
    once on each, and the destination keeps what was written. *)
Lemma Embed_exit_paths :
  let run src dst :=
    match Embed unicode.IsLetter unicode.IsNumber buffering (mkFlags true true)
                (str "a") (start buffering src dst) with
    | Some (e, w) =>
      Some (e, z_closes (w_gz w), length (contents (w_dst w)))
    | None => None
    end in
  run (plain (str "ABC")) file = Some (None, 1, 209)
  /\ run (mkReader (str "ABC") (Err 5) 0) file = Some (Some (Err 5), 1, 24)
  /\ run (plain (str "ABC")) (mkSink [] (Some 1) (Err 28))
     = Some (Some (Err 28), 1, 1)
  /\ run (plain (str "ABC")) (mkSink [] (Some 10) (Err 28))
     = Some (Some (Err 28), 1, 10).
Proof. vm_compute. repeat split. Qed.

(** * Further properties *)

(** ** Paths and separators *)

Module separator_facts.
Import utf8 utf8_facts filepath.

Lemma no_separator_In s : ~ In Separator s -> no_separator s = true.
Proof.
  unfold no_separator. induction s as [|b s IH]; intros H; [reflexivity|].
  cbn [forallb]. rewrite IH by (intros Hin; apply H; right; exact Hin).
  rewrite andb_true_r. apply negb_true_iff. unfold IsPathSeparator.
  destruct (Byte.eqb b Separator) eqn:E; [|reflexivity].
  apply Byte.byte_dec_bl in E. exfalso. apply H. left. exact E.
Qed.

(** A byte below 128 in the encoding of a code point is that code
    point: the bytes of longer encodings are 128 and above. *)
Lemma Encode_ascii r b : valid_rune r -> In b (EncodeRune r) ->
  (b2z b < 128)%Z -> b2z b = r.
Proof.
  unfold valid_rune. intros V Hin Hb.
  destruct (Z_lt_le_dec r RuneSelf) as [H1|H1].
  { rewrite EncodeRune_1 in Hin by (consts; lia).
    destruct Hin as [<-|[]]. apply b2z_z2b. consts. lia. }
  exfalso.
  destruct (Z_le_gt_dec r rune2Max) as [H2|H2].
  { rewrite EncodeRune_2 in Hin by lia.
    destruct Hin as [<-|[<-|[]]];
      rewrite b2z_z2b in Hb by (consts; zlia); consts; zlia. }
  destruct (Z_le_gt_dec r rune3Max) as [H3|H3].
  { rewrite EncodeRune_3 in Hin by (consts; lia).
    destruct Hin as [<-|[<-|[<-|[]]]];
      rewrite b2z_z2b in Hb by (consts; zlia); consts; zlia. }
  rewrite EncodeRune_4 in Hin by (consts; lia).
  destruct Hin as [<-|[<-|[<-|[<-|[]]]]];
    rewrite b2z_z2b in Hb by (consts; zlia); consts; zlia.
Qed.

(** The encoding of a code point other than the slash holds no slash. *)
Lemma Encode_no_separator r : valid_rune r -> r <> 47%Z ->
  no_separator (EncodeRune r) = true.
Proof.
  intros V Hne. unfold no_separator. apply forallb_forall. intros b Hin.
  apply negb_true_iff. unfold IsPathSeparator.
  destruct (Byte.eqb b Separator) eqn:E; [|reflexivity].
  apply Byte.byte_dec_bl in E. subst b.
  exfalso. apply Hne. symmetry. apply (Encode_ascii r Separator V Hin).
  reflexivity.
Qed.

Lemma firstn_snoc {A} (d : A) (l : list A) : forall n, n < length l ->
  firstn (S n) l = firstn n l ++ [nth n l d].
Proof.
  induction l as [|a l IH]; intros n Hn; [cbn in Hn; lia|].
  destruct n as [|n]; [reflexivity|].
  cbn [length] in Hn. cbn [firstn nth app]. rewrite <- IH by lia. reflexivity.
Qed.

(** The backward scans look at positions below their start only. *)
Lemma strip_trailing_local k : forall l t, k <= length l ->
  strip_trailing k (l ++ t) = strip_trailing k l.
Proof.
  induction k as [|k IH]; intros l t Hk; [reflexivity|].
  cbn [strip_trailing]. rewrite app_nth1 by lia. rewrite IH by lia. reflexivity.
Qed.

Lemma strip_trailing_last l b : IsPathSeparator b = false ->
  strip_trailing (length (l ++ [b])) (l ++ [b]) = length (l ++ [b]).
Proof.
  intros Hb. rewrite length_app. cbn [length]. rewrite Nat.add_1_r.
  cbn [strip_trailing]. rewrite app_nth2, Nat.sub_diag by lia.
  cbn [nth]. rewrite Hb. reflexivity.
Qed.

Lemma strip_trailing_slashes l n :
  strip_trailing (length l + n) (l ++ repeat Separator n)
  = strip_trailing (length l) l.
Proof.
  induction n as [|n IH].
  - rewrite Nat.add_0_r. cbn [repeat]. rewrite app_nil_r. reflexivity.
  - rewrite Nat.add_succ_r. cbn [strip_trailing].
    rewrite app_nth2 by lia.
    replace (length l + n - length l) with n by lia.
    replace (nth n (repeat Separator (S n)) x00) with Separator
      by (symmetry; apply nth_repeat_lt; lia).
    change (IsPathSeparator Separator) with true. cbv iota.
    rewrite <- IH. cbn [repeat]. rewrite repeat_cons, app_assoc.
    apply strip_trailing_local. rewrite length_app, repeat_length. lia.
Qed.

Lemma after_last_separator_none path : forall n,
  n <= length path -> no_separator (firstn n path) = true ->
  after_last_separator n path = None.
Proof.
  unfold no_separator.
  induction n as [|n IH]; intros Hn H; [reflexivity|].
  cbn [after_last_separator].
  rewrite (firstn_snoc x00) in H by lia.
  rewrite forallb_app in H. apply andb_true_iff in H as [H1 H2].
  cbn [forallb] in H2. rewrite andb_true_r in H2.
  apply negb_true_iff in H2. rewrite H2. apply IH; [lia | exact H1].
Qed.

Lemma after_last_separator_skip pre f : no_separator f = true ->
  forall k, k <= length f ->
  after_last_separator (length pre + k) (pre ++ f)
  = after_last_separator (length pre) (pre ++ f).
Proof.
  unfold no_separator. intros Hf.
  induction k as [|k IH]; intros Hk; [rewrite Nat.add_0_r; reflexivity|].
  rewrite Nat.add_succ_r. cbn [after_last_separator].
  rewrite app_nth2 by lia.
  replace (length pre + k - length pre) with k by lia.
  rewrite forallb_forall in Hf.
  rewrite (proj1 (negb_true_iff _) (Hf (nth k f x00) (nth_In f x00 Hk))).
  apply IH. lia.
Qed.

Lemma Base_cons p : p <> [] ->
  Base p =
  let path := firstn (strip_trailing (length p) p) p in
  let path := match after_last_separator (length path) path with
              | Some i => skipn i path
              | None => path
              end in
  match path with
  | [] => [Separator]
  | _ => path
  end.
Proof. destruct p; [congruence | reflexivity]. Qed.

(** A name without slashes is its own base name. *)
Lemma Base_plain s : s <> [] -> no_separator s = true -> Base s = s.
Proof.
  intros Hne Hs. unfold Base. destruct s as [|a s']; [congruence|].
  set (s := a :: s') in *.
  destruct (exists_last Hne) as (l & b & E). rewrite E in *.
  assert (Hb : IsPathSeparator b = false).
  { unfold no_separator in Hs. rewrite forallb_app in Hs.
    apply andb_true_iff in Hs as [_ Hs]. cbn in Hs.
    rewrite andb_true_r in Hs. apply negb_true_iff, Hs. }
  rewrite strip_trailing_last, firstn_all by exact Hb.
  rewrite after_last_separator_none;
    [| apply le_n | rewrite firstn_all; exact Hs].
  destruct (l ++ [b]) eqn:El; [|reflexivity].
  destruct l; discriminate.
Qed.

(** The base name of [dir/f] followed by slashes is [f]. *)
Lemma Base_last dir f n : f <> [] -> no_separator f = true ->
  Base (dir ++ Separator :: f ++ repeat Separator n) = f.
Proof.
  intros Hne Hf.
  destruct (exists_last Hne) as (l & b & E).
  assert (Hb : IsPathSeparator b = false).
  { rewrite E in Hf. unfold no_separator in Hf. rewrite forallb_app in Hf.
    apply andb_true_iff in Hf as [_ Hf]. cbn in Hf.
    rewrite andb_true_r in Hf. apply negb_true_iff, Hf. }
  remember (dir ++ Separator :: f) as q eqn:Eq0.
  remember (q ++ repeat Separator n) as p eqn:Ep.
  assert (H1 : strip_trailing (length p) p = length q).
  { rewrite Ep, length_app, repeat_length, strip_trailing_slashes.
    replace q with ((dir ++ Separator :: l) ++ [b])
      by (rewrite Eq0, E, <- app_assoc; reflexivity).
    apply strip_trailing_last, Hb. }
  assert (H2 : firstn (length q) p = q).
  { rewrite Ep, firstn_app, firstn_all, Nat.sub_diag, firstn_O.
    apply app_nil_r. }
  assert (Eq : q = (dir ++ [Separator]) ++ f).
  { rewrite Eq0, <- app_assoc. reflexivity. }
  assert (H3 : after_last_separator (length q) q = Some (S (length dir))).
  { rewrite Eq at 1. rewrite (length_app (dir ++ [Separator]) f), Eq.
    rewrite after_last_separator_skip by (try apply le_n; exact Hf).
    rewrite length_app. cbn [length]. rewrite Nat.add_1_r.
    cbn [after_last_separator].
    rewrite <- app_assoc, app_nth2, Nat.sub_diag by lia. reflexivity. }
  assert (H4 : skipn (S (length dir)) q = f).
  { rewrite Eq.
    replace (S (length dir)) with (length (dir ++ [Separator]))
      by (rewrite length_app; cbn; lia).
    rewrite skipn_app, skipn_all, Nat.sub_diag, skipn_O. reflexivity. }
  replace (dir ++ Separator :: f ++ repeat Separator n) with p
    by (rewrite Ep, Eq0, <- app_assoc; reflexivity).
  rewrite Base_cons by (rewrite Ep, Eq0; destruct dir; discriminate).
  cbv zeta. rewrite H1, H2, H3, H4.
  destruct f; [congruence | reflexivity].
Qed.

End separator_facts.

Section SanitiseMore.
Import utf8 utf8_facts runes_facts filepath filepath_facts separator_facts.
Variables IsLetter IsNumber : Z -> bool.
Local Abbreviation keep := (spec_keep IsLetter IsNumber).
Local Abbreviation sanitise := (sanitise IsLetter IsNumber).

(** A second pass of the rule changes nothing, as long as it has
    accepted a letter wherever the first pass had. *)
Lemma keep_keep rs : forall a1 a2, (a1 = true -> a2 = true) ->
  keep a2 (keep a1 rs) = keep a1 rs.
Proof.
  induction rs as [|r rs IH]; intros a1 a2 Ha; [reflexivity|].
  cbn [spec_keep]. destruct (IsLetter r) eqn:EL.
  - cbn [spec_keep]. rewrite EL, IH by reflexivity. reflexivity.
  - destruct a1; cbn [andb].
    + rewrite (Ha eq_refl). destruct (IsNumber r) eqn:EN.
      * cbn [spec_keep andb]. rewrite EL, EN, IH by reflexivity. reflexivity.
      * cbn [spec_keep andb].
        destruct (IsLetter underscore); [|destruct (IsNumber underscore)];
          rewrite IH by reflexivity; reflexivity.
    + cbn [spec_keep].
      destruct (IsLetter underscore);
        [|destruct (a2 && IsNumber underscore)];
        rewrite IH by (try discriminate; reflexivity); reflexivity.
Qed.

(** Letters, and numbers and underscores after a letter, are kept. *)
Lemma keep_identifier rs :
  Forall (fun c => IsLetter c || IsNumber c = true \/ c = underscore) rs ->
  keep true rs = rs.
Proof.
  induction 1 as [|c rs Hc _ IH]; [reflexivity|].
  cbn [spec_keep andb]. rewrite IH.
  destruct (IsLetter c), (IsNumber c); try reflexivity.
  destruct Hc as [Hc | ->]; [discriminate | reflexivity].
Qed.

Lemma flat_map_no_separator rs :
  Forall valid_rune rs -> ~ In 47%Z rs ->
  no_separator (flat_map EncodeRune rs) = true.
Proof.
  unfold no_separator.
  induction 1 as [|r rs V _ IH]; intros Hn; [reflexivity|].
  cbn [flat_map]. rewrite forallb_app.
  assert (Hr : r <> 47%Z) by (intros ->; apply Hn; left; reflexivity).
  pose proof (Encode_no_separator r V Hr) as E. unfold no_separator in E.
  rewrite E. apply IH. intros Hin. apply Hn. right. exact Hin.
Qed.

Lemma keep_no_slash acc rs :
  IsLetter 47 = false -> IsNumber 47 = false -> ~ In 47%Z (keep acc rs).
Proof.
  intros HL HN Hin.
  pose proof (keep_charset IsLetter IsNumber acc rs) as Hc.
  rewrite Forall_forall in Hc. destruct (Hc _ Hin) as [H | [H | H]];
    [congruence | congruence | discriminate H].
Qed.

(** X1: the identifier depends on the last element of the path only:
    the directories in front of it and slashes behind it are dropped. *)
Theorem sanitise_ignores_directory (dir f : list byte) (n : nat) :
  0 < length f -> ~ In Separator f ->
  Base (dir ++ Separator :: f ++ repeat Separator n) = f
  /\ sanitise (dir ++ Separator :: f ++ repeat Separator n) = sanitise f.
Proof.
  intros Hlen Hf.
  assert (Hne : f <> []) by (destruct f; [cbn in Hlen; lia | discriminate]).
  pose proof (no_separator_In f Hf) as Hs.
  pose proof (Base_last dir f n Hne Hs) as B.
  split; [exact B|].
  rewrite !sanitise_spec, B, (Base_plain f Hne Hs). reflexivity.
Qed.

(** X2: the identifier is well-formed UTF-8 even when the name is
    not: decoding it and encoding the code points again gives it back. *)
Theorem sanitise_well_formed (f : list byte) :
  exists id, sanitise f = Some id
    /\ flat_map EncodeRune (runes id) = id.
Proof.
  pose proof (sanitise_spec IsLetter IsNumber f) as E.
  eexists. split; [exact E|].
  rewrite runes_flat_map by apply keep_valid, runes_valid. reflexivity.
Qed.

(** X3: a byte of the identifier below 128 is a letter, a number or
    the underscore, whatever bytes the name holds. *)
Theorem sanitise_ascii_bytes (f : list byte) :
  exists id, sanitise f = Some id
    /\ Forall (fun b => (128 <= b2z b)%Z
                        \/ IsLetter (b2z b) = true
                        \/ IsNumber (b2z b) = true
                        \/ b = "_"%byte) id.
Proof.
  pose proof (sanitise_spec IsLetter IsNumber f) as E.
  eexists. split; [exact E|].
  apply Forall_forall. intros b Hin.
  apply in_flat_map in Hin as (r & Hr & Hb).
  destruct (Z_lt_le_dec (b2z b) 128) as [Hlt|Hge]; [right | left; exact Hge].
  assert (V : valid_rune r).
  { pose proof (keep_valid IsLetter IsNumber false _ (runes_valid (Base f))) as HV.
    rewrite Forall_forall in HV. apply HV, Hr. }
  pose proof (Encode_ascii r b V Hb Hlt) as Er.
  pose proof (keep_charset IsLetter IsNumber false (runes (Base f))) as Hc.
  rewrite Forall_forall in Hc. destruct (Hc _ Hr) as [H | [H | H]].
  - left. rewrite Er. exact H.
  - right. left. rewrite Er. exact H.
  - right. right. apply b2z_inj. rewrite Er, H. reflexivity.
Qed.

(** X4: sanitising an identifier that [sanitise] returned gives the
    same identifier, when the slash is neither a letter nor a number. *)
Theorem sanitise_idempotent (f id : list byte) :
  IsLetter 47 = false -> IsNumber 47 = false ->
  sanitise f = Some id -> sanitise id = Some id.
Proof.
  intros HL HN E. rewrite sanitise_spec in E. injection E as E.
  set (ks := keep false (runes (Base f))) in *.
  assert (V : Forall valid_rune ks) by apply keep_valid, runes_valid.
  assert (Hne : id <> []).
  { rewrite <- E. apply flat_map_Encode_nonempty. intros Z.
    apply (f_equal (@length _)) in Z. unfold ks in Z.
    rewrite keep_length in Z.
    pose proof (runes_nonempty _ (Base_nonempty f)).
    destruct (runes (Base f)); [congruence | discriminate]. }
  assert (B : Base id = id).
  { apply Base_plain; [exact Hne|]. rewrite <- E.
    apply flat_map_no_separator; [exact V | apply keep_no_slash; assumption]. }
  rewrite sanitise_spec, B. rewrite <- E at 1.
  rewrite runes_flat_map by exact V.
  unfold ks. rewrite keep_keep by auto. fold ks. rewrite E. reflexivity.
Qed.

(** X5: an identifier is left as it is: the encoding of a letter
    followed by letters, numbers and underscores comes back unchanged,
    when the slash is neither a letter nor a number. *)
Theorem sanitise_keeps_identifiers (r : Z) (rs : list Z) :
  IsLetter 47 = false -> IsNumber 47 = false ->
  Forall valid_rune (r :: rs) ->
  IsLetter r = true ->
  Forall (fun c => IsLetter c || IsNumber c = true \/ c = underscore) rs ->
  sanitise (flat_map EncodeRune (r :: rs)) = Some (flat_map EncodeRune (r :: rs)).
Proof.
  intros HL HN V Hr Hrs.
  assert (Hno : ~ In 47%Z (r :: rs)).
  { intros [E | Hin]; [congruence|].
    rewrite Forall_forall in Hrs. destruct (Hrs _ Hin) as [H | H].
    - rewrite HL, HN in H. discriminate.
    - discriminate H. }
  assert (B : Base (flat_map EncodeRune (r :: rs)) = flat_map EncodeRune (r :: rs)).
  { apply Base_plain.
    - apply flat_map_Encode_nonempty. discriminate.
    - apply flat_map_no_separator; assumption. }
  rewrite sanitise_spec, B, runes_flat_map by exact V.
  cbn [spec_keep]. rewrite Hr, keep_identifier by exact Hrs. reflexivity.
Qed.

End SanitiseMore.

Lemma sanitise_ignores_directory_witness :
  filepath.Base (str "a/b/c.txt//") = str "c.txt"
  /\ sanitise unicode.IsLetter unicode.IsNumber (str "a/b/c.txt//")
     = sanitise unicode.IsLetter unicode.IsNumber (str "c.txt").
Proof.
  apply (sanitise_ignores_directory unicode.IsLetter unicode.IsNumber
           (str "a/b") (str "c.txt") 2).
  - cbn. lia.
  - cbn. intros H. repeat (destruct H as [H|H]; [discriminate H|]). exact H.
Defined.

Lemma sanitise_idempotent_witness :
  sanitise unicode.IsLetter unicode.IsNumber (str "__b_c") = Some (str "__b_c").
Proof.
  apply (sanitise_idempotent unicode.IsLetter unicode.IsNumber
           (str "a/+1b.c") (str "__b_c")); reflexivity.
Defined.

Lemma sanitise_keeps_identifiers_witness :
  sanitise unicode.IsLetter unicode.IsNumber (str "a1_b") = Some (str "a1_b").
Proof.
  apply (sanitise_keeps_identifiers unicode.IsLetter unicode.IsNumber
           97%Z [49; 95; 98]%Z).
  - reflexivity.
  - reflexivity.
  - repeat constructor; vm_compute; intuition discriminate.
  - reflexivity.
  - constructor; [left; reflexivity|].
    constructor; [right; reflexivity|].
    constructor; [left; reflexivity|]. constructor.
Defined.

Section DigestFacts.

Lemma be_bytes_length n : forall x, length (SHA1.be_bytes n x) = n.
Proof.
  induction n as [|n IH]; intros x; [reflexivity|].
  cbn [SHA1.be_bytes]. rewrite length_app, IH. cbn. lia.
Qed.

Lemma Sum_length msg : length (SHA1.Sum msg) = 20.
Proof.
  unfold SHA1.Sum.
  destruct (SHA1.blocks _ _ _) as [[[[a b] c] d] e].
  rewrite !length_app, !be_bytes_length. reflexivity.
Qed.

Lemma chunks_digest sum : length sum = 20 ->
  chunks ((length sum + 11) / 12) sum = [firstn 12 sum; skipn 12 sum].
Proof.
  intros H. rewrite H. change ((20 + 11) / 12) with 2.
  cbn [chunks]. unfold BUF_SIZE.
  rewrite (firstn_all2 (n := 12) (skipn 12 sum))
    by (rewrite length_skipn; lia).
  reflexivity.
Qed.

Lemma hex_line_length c : 0 < length c -> length (hex_line c) = 6 * length c + 1.
Proof.
  intros H. unfold hex_line.
  set (data := flat_map _ c).
  assert (L : length data = 6 * length c).
  { unfold data. clear H data. induction c as [|b c IH]; [reflexivity|].
    cbn [flat_map]. rewrite length_app, IH. cbn [length].
    unfold fmt_02x. cbn. lia. }
  rewrite !length_app, length_firstn, L. cbn. lia.
Qed.

Lemma lines_length k : forall d,
  length d <= 12 * k -> 12 * k < length d + 12 ->
  length (concat (map hex_line (chunks k d))) = 6 * length d + k.
Proof.
  induction k as [|k IH]; intros d H1 H2.
  - destruct d; [reflexivity | cbn in H1; lia].
  - cbn [chunks map concat]. unfold BUF_SIZE.
    rewrite length_app, hex_line_length by (rewrite length_firstn; lia).
    rewrite IH by (rewrite length_skipn; lia).
    rewrite length_firstn, length_skipn. lia.
Qed.

Lemma ceil12_bounds L : L <= 12 * ((L + 11) / 12) /\ 12 * ((L + 11) / 12) < L + 12.
Proof.
  pose proof (Nat.div_mod_eq (L + 11) 12).
  pose proof (Nat.mod_upper_bound (L + 11) 12 ltac:(lia)). lia.
Qed.

End DigestFacts.

Section EmbedMore.
Variables IsLetter IsNumber : Z -> bool.
Variable C : Compressor.
Local Abbreviation embed := (Embed IsLetter IsNumber C).
Local Abbreviation ident := (identifier IsLetter IsNumber).

(** X7: with [-sha1], for every input, the digest declaration that
    follows the data declaration is its header, a line of twelve entries,
    a line of eight and the closing brace; the two lines read back as the
    SHA1 of the text of the data declaration, with or without [-gzip]. *)
Theorem digest_declaration (gz : bool) (name data : list byte) (g : nat) :
  exists w',
    embed (mkFlags gz true) name (start C (mkReader data EOF g) file)
    = Some (None, w')
    /\ let decl := concat (data_block name (ident name) data) in
       let sum := SHA1.Sum decl in
       text_of (chain (mkFlags gz true)) w'
       = decl ++ hash_header name (ident name)
              ++ hex_line (firstn 12 sum) ++ hex_line (skipn 12 sum) ++ footer
       /\ entries (hex_line (firstn 12 sum)) = 12
       /\ entries (hex_line (skipn 12 sum)) = 8
       /\ unhex (hex_line (firstn 12 sum) ++ hex_line (skipn 12 sum)) = sum.
Proof.
  destruct (Embed_text IsLetter IsNumber C (mkFlags gz true) name data EOF g
              (Err 28)) as (w' & E & T & _).
  exists w'. split; [exact E|].
  intros decl sum.
  pose proof (Sum_length decl) as L. fold sum in L.
  split; [|split; [|split]].
  - rewrite T. unfold written, output. cbn [clean error_eqb orb sha].
    fold decl. fold sum. rewrite concat_app. f_equal.
    unfold hash_block. rewrite chunks_digest by exact L.
    cbn [map app concat]. rewrite app_nil_r, <- ?app_assoc. reflexivity.
  - rewrite entries_hex_line, length_firstn. lia.
  - rewrite entries_hex_line, length_skipn. lia.
  - rewrite unhex_hex_line.
    + rewrite <- (app_nil_r (hex_line (skipn 12 sum))).
      rewrite unhex_hex_line by discriminate.
      cbn [unhex]. rewrite app_nil_r. apply firstn_skipn.
    + intros x t Ex. destruct (hex_line_head (skipn 12 sum)) as [t' Ht'].
      rewrite Ht' in Ex. injection Ex as <- _. discriminate.
Qed.

(** X8: [-sha1] changes nothing of the data declaration: the text
    with [-sha1] is the text without it followed by the declaration of the
    SHA1 of that text; when the source fails the two texts are the same.
    The result is the same with and without [-sha1]. *)
Theorem sha1_appends_digest (gz : bool) (name data : list byte) (e : error)
    (g : nat) :
  exists r w0 w1,
    embed (mkFlags gz false) name (start C (mkReader data e g) file)
    = Some (r, w0)
    /\ embed (mkFlags gz true) name (start C (mkReader data e g) file)
       = Some (r, w1)
    /\ text_of (chain (mkFlags gz true)) w1
       = text_of (chain (mkFlags gz false)) w0
         ++ (if clean e
             then concat (hash_block name (ident name)
                            (SHA1.Sum (text_of (chain (mkFlags gz false)) w0)))
             else []).
Proof.
  destruct (Embed_text IsLetter IsNumber C (mkFlags gz false) name data e g
              (Err 28)) as (w0 & E0 & T0 & _).
  destruct (Embed_text IsLetter IsNumber C (mkFlags gz true) name data e g
              (Err 28)) as (w1 & E1 & T1 & _).
  exists (if clean e then None else Some e), w0, w1.
  split; [exact E0|]. split; [exact E1|].
  rewrite T1, T0. unfold written, output. destruct (clean e); cbn [sha].
  - rewrite app_nil_r, concat_app. reflexivity.
  - rewrite app_nil_r. reflexivity.
Qed.

(** X9: [-gzip] changes the destination of the text, not the text:
    the gzip writer absorbs the very writes the file receives without
    [-gzip], the file receives their compressed stream after what it held,
    the result is the same and so is what the digest absorbs. *)
Theorem gzip_absorbs_plain_text (hash : bool) (name data : list byte)
    (e : error) (g : nat) (l0 : list (list byte)) (f : error) :
  exists r w0 w1,
    embed (mkFlags false hash) name
          (start C (mkReader data e g) (mkSink l0 None f)) = Some (r, w0)
    /\ embed (mkFlags true hash) name
             (start C (mkReader data e g) (mkSink l0 None f)) = Some (r, w1)
    /\ exists ps,
         log (w_dst w0) = l0 ++ ps
         /\ z_absorbed (w_gz w1) = concat ps
         /\ contents (w_dst w1) = concat l0 ++ compressed C ps
         /\ w_sha1 w1 = w_sha1 w0.
Proof.
  destruct (Embed_plain IsLetter IsNumber C hash name data e g l0 f)
    as (w0 & E0 & L0 & S0 & _).
  destruct (Embed_gzip IsLetter IsNumber C hash name data e g l0 f)
    as (w1 & E1 & A1 & D1 & S1 & _).
  exists (if clean e then None else Some e), w0, w1.
  split; [exact E0|]. split; [exact E1|].
  exists (written IsLetter IsNumber (mkFlags false hash) name e data).
  split; [exact L0|].
  assert (W : written IsLetter IsNumber (mkFlags true hash) name e data
              = written IsLetter IsNumber (mkFlags false hash) name e data)
    by reflexivity.
  rewrite <- W. split; [exact A1|]. split; [exact D1|].
  rewrite S1, S0, W. reflexivity.
Qed.

(** X10: without flags the file grows by twenty-two bytes, the name,
    the identifier, six bytes for every byte of input and one more for
    every line. *)
Theorem data_declaration_size (name data : list byte) (g : nat)
    (l0 : list (list byte)) (f : error) :
  exists w',
    embed (mkFlags false false) name
          (start C (mkReader data EOF g) (mkSink l0 None f))
    = Some (None, w')
    /\ length (contents (w_dst w'))
       = length (concat l0) + 22 + length name + length (ident name)
         + 6 * length data + (length data + 11) / 12.
Proof.
  destruct (Embed_plain IsLetter IsNumber C false name data EOF g l0 f)
    as (w' & E & L & _).
  exists w'. split; [exact E|].
  unfold contents. rewrite L, concat_app, length_app.
  unfold written, output. cbn [clean error_eqb orb sha].
  rewrite app_nil_r. unfold data_block. cbn [concat].
  rewrite concat_app, !length_app. cbn [concat].
  destruct (ceil12_bounds (length data)) as [B1 B2].
  rewrite lines_length by assumption.
  unfold data_header. rewrite !length_app. cbn [length NL str footer].
  cbn. lia.
Qed.

End EmbedMore.

Section FeedFacts.
Context {C : Compressor}.
Implicit Types (w : World C) (dst : Writer) (p : list byte).

Lemma same_out_refl w : same_out w w.
Proof. repeat split. Qed.

Lemma same_out_sym w1 w2 : same_out w1 w2 -> same_out w2 w1.
Proof. intros (A & B & D). repeat split; congruence. Qed.

Lemma same_out_trans w1 w2 w3 :
  same_out w1 w2 -> same_out w2 w3 -> same_out w1 w3.
Proof. intros (A & B & D) (A' & B' & D'). repeat split; congruence. Qed.

Lemma same_out_with_src w1 w2 : same_out w1 w2 -> w1 = with_src (w_src w1) w2.
Proof.
  destruct w1, w2. unfold same_out, with_src. cbn.
  intros (-> & -> & ->). reflexivity.
Qed.

Lemma with_src_same_out r w : same_out (with_src r w) w.
Proof. repeat split. Qed.

Lemma Write_with_src dst p r : forall w,
  Write dst p (with_src r w)
  = match Write dst p w with
    | Some (x, w') => Some (x, with_src r w')
    | None => None
    end.
Proof.
  induction dst as [| |d IH]; intros w.
  - cbn [Write]. cbn [with_src w_dst w_src w_gz w_sha1].
    destruct (io.sink_Write (w_dst w) p) as [[n e] s]. reflexivity.
  - cbn [Write]. unfold gzip.Write. cbn [with_src w_dst w_src w_gz w_sha1].
    destruct (z_err (w_gz w)); [reflexivity|].
    destruct (gz_step C (z_state (w_gz w)) p) as [st out].
    destruct out; [reflexivity|].
    destruct (io.sink_Write (w_dst w) (b :: out)) as [[n e] s]. reflexivity.
  - cbn [Write]. unfold bind. rewrite IH.
    destruct (Write d p w) as [[[n e] w']|]; [|reflexivity].
    destruct (negb (is_nil e)); [reflexivity|].
    destruct (negb (n =? length p)); reflexivity.
Qed.

Lemma Fprintf_with_src dst p r w :
  Fprintf dst p (with_src r w)
  = match Fprintf dst p w with
    | Some (e, w') => Some (e, with_src r w')
    | None => None
    end.
Proof.
  unfold Fprintf, bind. rewrite Write_with_src.
  destruct (Write dst p w) as [[x w']|]; reflexivity.
Qed.

Lemma Fprintf_total dst p w : exists e w', Fprintf dst p w = Some (e, w').
Proof.
  destruct (Write_total dst p w) as (r & w' & E).
  exists (snd r), w'. unfold Fprintf, bind. rewrite E. reflexivity.
Qed.

Lemma Fprintf_feed dst p w : Fprintf dst p w = Some (feed dst [p] w).
Proof.
  destruct (Fprintf_total dst p w) as (e & w' & E). cbn [feed]. rewrite E.
  destruct e; reflexivity.
Qed.

Lemma feed_with_src dst ps r : forall w,
  feed dst ps (with_src r w)
  = (fst (feed dst ps w), with_src r (snd (feed dst ps w))).
Proof.
  induction ps as [|p ps IH]; intros w; [reflexivity|].
  cbn [feed]. rewrite Fprintf_with_src.
  destruct (Fprintf dst p w) as [[[e|] w']|]; [reflexivity | apply IH | reflexivity].
Qed.

Lemma feed_same_out dst ps w1 w2 : same_out w1 w2 ->
  fst (feed dst ps w1) = fst (feed dst ps w2)
  /\ same_out (snd (feed dst ps w1)) (snd (feed dst ps w2)).
Proof.
  intros H. rewrite (same_out_with_src w1 w2 H), feed_with_src.
  split; [reflexivity | apply with_src_same_out].
Qed.

Lemma feed_app dst a b : forall w,
  feed dst (a ++ b) w
  = match fst (feed dst a w) with
    | Some _ => feed dst a w
    | None => feed dst b (snd (feed dst a w))
    end.
Proof.
  induction a as [|p a IH]; intros w; [reflexivity|].
  cbn [app feed]. destruct (Fprintf_total dst p w) as (e & w' & E).
  rewrite E. destruct e; [reflexivity | apply IH].
Qed.

(** What the digest has absorbed after writes that succeeded. *)

Lemma Write_length dst p w n w' : simple dst ->
  Write dst p w = Some ((n, None), w') -> n = length p.
Proof.
  intros Hs. destruct dst as [| |d].
  - cbn [Write]. unfold io.sink_Write. destruct (room (w_dst w)) as [k|].
    + destruct (length p <=? k); intros [= <- ]; try reflexivity.
    + intros [= <-]. reflexivity.
  - cbn [Write]. unfold gzip.Write. destruct (z_err (w_gz w)); [discriminate|].
    destruct (gz_step C (z_state (w_gz w)) p) as [st out].
    destruct out as [|b out]; [intros [= <-]; reflexivity|].
    destruct (io.sink_Write (w_dst w) (b :: out)) as [[m e] s].
    destruct e; [discriminate|]. intros [= <-]. reflexivity.
  - cbn [Write]. unfold bind.
    destruct (Write d p w) as [[[m e] w1]|]; [|discriminate].
    destruct e; cbn [is_nil negb]; [discriminate|].
    destruct (m =? length p); cbn [negb]; [|discriminate].
    intros [= <-]. reflexivity.
Qed.

Lemma Write_sha1_plain dst p w r w' : hashing dst = false ->
  Write dst p w = Some (r, w') -> w_sha1 w' = w_sha1 w.
Proof.
  destruct dst as [| |d]; [| |discriminate]; intros _.
  - cbn [Write].
    destruct (io.sink_Write (w_dst w) p) as [[m e] s]. intros [= _ <-].
    reflexivity.
  - cbn [Write]. unfold gzip.Write.
    destruct (z_err (w_gz w)); [intros [= _ <-]; reflexivity|].
    destruct (gz_step C (z_state (w_gz w)) p) as [st out].
    destruct out as [|b out]; [intros [= _ <-]; reflexivity|].
    destruct (io.sink_Write (w_dst w) (b :: out)) as [[m e] s].
    intros [= _ <-]. reflexivity.
Qed.

Lemma Write_sha1 dst p w n w' : simple dst ->
  Write dst p w = Some ((n, None), w') ->
  w_sha1 w' = if hashing dst then w_sha1 w ++ p else w_sha1 w.
Proof.
  intros Hs. destruct (hashing dst) eqn:Hh.
  - destruct dst as [| |d]; try discriminate.
    cbn [Write]. unfold bind.
    destruct (Write d p w) as [[[m e] w1]|] eqn:E; [|discriminate].
    destruct e; cbn [is_nil negb]; [discriminate|].
    destruct (m =? length p); cbn [negb]; [|discriminate].
    intros [= _ <-]. cbn [w_sha1]. f_equal.
    apply (Write_sha1_plain d p w (m, None) w1); [|exact E].
    destruct d; cbn in Hs; [reflexivity | reflexivity | contradiction].
  - apply Write_sha1_plain, Hh.
Qed.

Lemma Fprintf_sha1 dst p w w' : simple dst ->
  Fprintf dst p w = Some (None, w') ->
  w_sha1 w' = if hashing dst then w_sha1 w ++ p else w_sha1 w.
Proof.
  intros Hs. unfold Fprintf, bind.
  destruct (Write dst p w) as [[[n e] w1]|] eqn:E; [|discriminate].
  cbn [snd ret]. intros [= -> <-]. apply (Write_sha1 dst p w n w1 Hs E).
Qed.

Lemma feed_sha1 dst ps : simple dst -> forall w,
  fst (feed dst ps w) = None ->
  w_sha1 (snd (feed dst ps w))
  = if hashing dst then w_sha1 w ++ concat ps else w_sha1 w.
Proof.
  intros Hs. induction ps as [|p ps IH]; intros w H.
  - cbn. rewrite app_nil_r. destruct (hashing dst); reflexivity.
  - cbn [feed] in *. destruct (Fprintf_total dst p w) as (e & w' & E).
    rewrite E in *. destruct e; [discriminate H|].
    rewrite IH by exact H. rewrite (Fprintf_sha1 dst p w w' Hs E).
    cbn [concat]. destruct (hashing dst); [rewrite app_assoc|]; reflexivity.
Qed.

(** ** Sequencing *)

Lemma does_from dst (m m' : M C (option error)) ps ps' ok ok' w w0 wf :
  m w = m' w0 -> ps = ps' -> ok = ok' ->
  does dst m' ps' ok' w0 wf -> does dst m ps ok w wf.
Proof. unfold does. intros -> -> ->. exact (fun H => H). Qed.

Lemma bind_cong {A B} (m : M C A) (f g : A -> M C B) w :
  (forall a w', m w = Some (a, w') -> f a w' = g a w') ->
  bind m f w = bind m g w.
Proof.
  intros H. unfold bind. destruct (m w) as [[a w']|] eqn:E; [|reflexivity].
  apply H. reflexivity.
Qed.

Lemma does_ret dst w wf : same_out w wf -> does dst (ret None) [] None w wf.
Proof. intros H. exists w. split; [reflexivity | exact H]. Qed.

Lemma Fprintf_does dst p w wf : same_out w wf ->
  does dst (Fprintf dst p) [p] None w wf.
Proof.
  intros H. exists (snd (feed dst [p] w)).
  rewrite Fprintf_feed.
  destruct (feed_same_out dst [p] w wf H) as [E S].
  split; [|exact S].
  unfold outcome. rewrite <- E.
  destruct (feed dst [p] w) as [[e|] w']; reflexivity.
Qed.

(** [m1], and [k] if [m1] returned nil. *)
Lemma does_seq dst (m1 : M C (option error))
    (k : option error -> M C (option error)) ps1 ok1 ps2 ok2 w wf :
  does dst m1 ps1 ok1 w wf ->
  (forall w1, m1 w = Some (None, w1) ->
              same_out w1 (snd (feed dst ps1 wf)) ->
              fst (feed dst ps1 wf) = None -> ok1 = None ->
              does dst (k None) ps2 ok2 w1 w1) ->
  does dst (e <- m1 ;; if negb (is_nil e) then ret e else k e)
       (match ok1 with None => ps1 ++ ps2 | Some _ => ps1 end)
       (match ok1 with None => ok2 | Some _ => ok1 end) w wf.
Proof.
  intros (w1 & E1 & S1) H2. unfold does, bind. rewrite E1.
  unfold outcome in *.
  destruct (fst (feed dst ps1 wf)) as [x|] eqn:EF.
  - cbn [is_nil negb]. exists w1. unfold ret.
    destruct ok1; [rewrite EF; split; [reflexivity | exact S1]|].
    rewrite feed_app, EF, EF. split; [reflexivity | exact S1].
  - destruct ok1 as [e|].
    + cbn [is_nil negb]. exists w1. rewrite EF.
      split; [reflexivity | exact S1].
    + cbn [is_nil negb].
      destruct (H2 w1 E1 S1 eq_refl eq_refl) as (w2 & E2 & S2).
      exists w2. rewrite E2, feed_app, EF.
      destruct (feed_same_out dst ps2 _ _ S1) as [F1 F2].
      unfold outcome. rewrite F1. split; [reflexivity|].
      apply (same_out_trans _ _ _ S2 F2).
Qed.

(** ** The loops *)

Lemma set_pending_same_out q w : same_out (set_pending q w) w.
Proof. repeat split. Qed.

(** The read loop in any state: its lines are written until one fails;
    when none fails the loop is left by [break] if the source ends
    cleanly and [Embed] returns the error of the source otherwise. *)
Lemma read_loop_does dst fuel : forall w wf,
  same_out w wf -> length (pending (w_src w)) < fuel ->
  does dst (read_loop fuel dst)
       (map hex_line
            (chunks (lines_for (at_end (w_src w)) (length (pending (w_src w))))
                    (pending (w_src w))))
       (if clean (at_end (w_src w)) then None else Some (at_end (w_src w)))
       w wf.
Proof.
  induction fuel as [|fuel IH]; intros w wf S Hfuel; [lia|].
  set (p := pending (w_src w)) in *. set (e := at_end (w_src w)) in *.
  set (w0 := set_pending (skipn BUF_SIZE p) w).
  assert (S0 : same_out w0 wf)
    by (apply (same_out_trans _ w); [apply set_pending_same_out | exact S]).
  assert (R : forall k : list byte * option error -> M C (option error),
            (r <- io.ReadFull BUF_SIZE ;; k r) w
            = k (firstn BUF_SIZE p, ReadFull_err BUF_SIZE p e) w0).
  { intros k. unfold bind. rewrite ReadFull_spec. reflexivity. }
  cbn [read_loop].
  destruct (Nat.leb_spec 12 (length p)) as [Hlong|Hshort].
  - (* a full buffer *)
    set (line := hex_line (firstn BUF_SIZE p)).
    set (rest := map hex_line
                   (chunks (lines_for e (length (skipn BUF_SIZE p)))
                           (skipn BUF_SIZE p))).
    apply (does_from dst _
             (x <- Fprintf dst line ;;
              if negb (is_nil x) then ret x
              else (fun _ => read_loop fuel dst) x)
             _ ([line] ++ rest) _
             (if clean e then None else Some e) w w0 wf).
    + rewrite R. unfold ReadFull_err, BUF_SIZE.
      destruct (Nat.leb_spec 12 (length p)); [|lia].
      cbn [is_nil negb andb]. rewrite length_firstn, Nat.min_l by exact Hlong.
      reflexivity.
    + unfold rest, line, BUF_SIZE. rewrite length_skipn.
      rewrite (lines_for_step e (length p)) by exact Hlong. reflexivity.
    + reflexivity.
    + apply (does_seq dst (Fprintf dst line) (fun _ => read_loop fuel dst)
               [line] None rest (if clean e then None else Some e) w0 wf).
      * apply Fprintf_does, S0.
      * intros w1 E1 S1 _ _.
        pose proof (Fprintf_src C _ _ _ _ _ E1) as Hsrc.
        apply (does_from dst _ (read_loop fuel dst) _
                 (map hex_line
                    (chunks (lines_for (at_end (w_src w1))
                                       (length (pending (w_src w1))))
                            (pending (w_src w1))))
                 _ (if clean (at_end (w_src w1)) then None
                    else Some (at_end (w_src w1))) w1 w1 w1).
        -- reflexivity.
        -- rewrite Hsrc. reflexivity.
        -- rewrite Hsrc. reflexivity.
        -- apply IH; [apply same_out_refl|].
           rewrite Hsrc. unfold w0, BUF_SIZE. cbn [set_pending w_src pending].
           rewrite length_skipn. lia.
  - unfold lines_for.
    destruct p as [|b t] eqn:Ep.
    + (* nothing left *)
      cbn [length]. cbn [Nat.add]. rewrite Nat.div_small, Nat.Div0.div_0_l by lia.
      assert (E0 : (if clean e then 0 else 0) = 0) by (destruct (clean e); reflexivity).
      rewrite E0. cbn [chunks map].
      exists w0. rewrite R. split; [|exact S0].
      unfold outcome. cbn [feed fst].
      destruct e; reflexivity.
    + (* a short buffer *)
      assert (Hl : 0 < length (b :: t) < 12) by (cbn [length] in *; lia).
      rewrite ceil12_short, Nat.div_small by lia.
      set (line := hex_line (firstn BUF_SIZE (b :: t))).
      assert (Hne : (length (firstn BUF_SIZE (b :: t)) =? 0) = false).
      { apply Nat.eqb_neq. rewrite length_firstn. unfold BUF_SIZE. lia. }
      assert (Hne' : (length (firstn BUF_SIZE (b :: t)) =? BUF_SIZE) = false).
      { apply Nat.eqb_neq. rewrite length_firstn. unfold BUF_SIZE. lia. }
      assert (Hlt : (0 <? length (b :: t)) = true) by (apply Nat.ltb_lt; lia).
      assert (Hle : (BUF_SIZE <=? length (b :: t)) = false)
        by (apply Nat.leb_gt; unfold BUF_SIZE; lia).
      destruct (clean e) eqn:Hc; cbn [chunks map].
      * apply (does_from dst _
                 (x <- Fprintf dst line ;;
                  if negb (is_nil x) then ret x else (fun _ => ret None) x)
                 _ ([line] ++ []) _ None w w0 wf).
        -- rewrite R. unfold ReadFull_err. rewrite Hle, Hlt, Hne, Hne'.
           destruct e; try discriminate Hc; reflexivity.
        -- reflexivity.
        -- reflexivity.
        -- apply (does_seq dst (Fprintf dst line) (fun _ => ret None)
                    [line] None [] None w0 wf).
           ++ apply Fprintf_does, S0.
           ++ intros w1 _ _ _ _. apply does_ret, same_out_refl.
      * exists w0. rewrite R. split; [|exact S0].
        unfold outcome. cbn [feed fst]. unfold ReadFull_err.
        rewrite Hle, Hlt.
        destruct e; try discriminate Hc; reflexivity.
Qed.

Lemma sum_loop_does dst fuel : forall sum w wf,
  same_out w wf -> length sum <= fuel ->
  does dst (sum_loop fuel dst sum)
       (map hex_line (chunks ((length sum + 11) / 12) sum)) None w wf.
Proof.
  induction fuel as [|fuel IH]; intros sum w wf S Hfuel.
  - destruct sum; [apply does_ret, S | cbn in Hfuel; lia].
  - destruct sum as [|b t]; [apply does_ret, S|].
    set (s := b :: t) in *.
    assert (Hs : 0 < length s) by (cbn; lia).
    set (n := if BUF_SIZE <? length s then BUF_SIZE else length s).
    set (line := hex_line (firstn n s)).
    set (rest := map hex_line
                   (chunks ((length (skipn n s) + 11) / 12) (skipn n s))).
    apply (does_from dst _
             (x <- Fprintf dst line ;;
              if negb (is_nil x) then ret x
              else (fun _ => sum_loop fuel dst (skipn n s)) x)
             _ ([line] ++ rest) _ None w w wf).
    + reflexivity.
    + unfold rest, line, n, BUF_SIZE.
      destruct (Nat.ltb_spec 12 (length s)) as [Hlong|Hshort].
      * rewrite length_skipn, (ceil12_step (length s)) by lia. reflexivity.
      * rewrite skipn_all, firstn_all. cbn [length Nat.add].
        rewrite (Nat.div_small 11) by lia. cbn [chunks map app].
        destruct (Nat.eq_dec (length s) 12) as [E|E].
        -- rewrite E. replace ((12 + 11) / 12) with 1 by reflexivity.
           cbn [chunks map]. unfold BUF_SIZE. rewrite <- E, firstn_all.
           reflexivity.
        -- rewrite ceil12_short by lia. cbn [chunks map]. unfold BUF_SIZE.
           rewrite firstn_all2 by lia. reflexivity.
    + reflexivity.
    + apply (does_seq dst (Fprintf dst line)
               (fun _ => sum_loop fuel dst (skipn n s)) [line] None rest None
               w wf).
      * apply Fprintf_does, S.
      * intros w1 _ _ _ _. apply IH; [apply same_out_refl|].
        rewrite length_skipn. unfold n, BUF_SIZE.
        destruct (12 <? length s); cbn [length] in *; lia.
Qed.

(** ** Writes straight into the file *)

Lemma Fprintf_direct dst p w : direct dst ->
  exists w',
    Fprintf dst p w = Some (snd (fst (io.sink_Write (w_dst w) p)), w')
    /\ w_dst w' = snd (io.sink_Write (w_dst w) p).
Proof.
  intros Hd. destruct dst as [| |[| |d]]; cbn in Hd; try contradiction.
  - unfold Fprintf, bind. cbn [Write].
    destruct (io.sink_Write (w_dst w) p) as [[n e] s].
    eexists. split; reflexivity.
  - unfold Fprintf, bind. cbn [Write]. unfold bind.
    unfold io.sink_Write. destruct (room (w_dst w)) as [k|].
    + destruct (length p <=? k).
      * cbn [is_nil negb]. rewrite Nat.eqb_refl. cbn [negb].
        eexists. split; reflexivity.
      * cbn [is_nil negb]. eexists. split; reflexivity.
    + cbn [is_nil negb]. rewrite Nat.eqb_refl. cbn [negb].
      eexists. split; reflexivity.
Qed.

(** A destination with room for [k] bytes takes the first [k] bytes of
    what is written and fails on the write that exceeds it. *)
Lemma feed_direct dst ps : direct dst -> forall w,
  fst (feed dst ps w)
  = (if fits (w_dst w) (length (concat ps)) then None
     else Some (full (w_dst w)))
  /\ contents (w_dst (snd (feed dst ps w)))
     = contents (w_dst w) ++ taken (w_dst w) (concat ps)
  /\ full (w_dst (snd (feed dst ps w))) = full (w_dst w).
Proof.
  intros Hd. induction ps as [|p ps IH]; intros w.
  - cbn [feed concat fst snd length]. unfold fits, taken.
    destruct (room (w_dst w)) as [k|]; cbn [Nat.leb];
      rewrite ?firstn_nil, app_nil_r; repeat split.
  - cbn [feed concat]. destruct (Fprintf_direct dst p w Hd) as (w' & E & D).
    rewrite E. specialize (IH w'). rewrite D in IH. clear E.
    unfold fits, taken, contents, io.sink_Write in *.
    rewrite length_app.
    destruct (room (w_dst w)) as [k|] eqn:Hr.
    + destruct (Nat.leb_spec (length p) k) as [Hle|Hgt].
      * cbn [fst snd log room full] in *.
        destruct IH as (I1 & I2 & I3). rewrite I1, I2, I3.
        split; [|split; [|reflexivity]].
        -- destruct (Nat.leb_spec (length (concat ps)) (k - length p));
             destruct (Nat.leb_spec (length p + length (concat ps)) k);
             (reflexivity || lia).
        -- rewrite concat_app. cbn [concat]. rewrite app_nil_r.
           rewrite firstn_app, (firstn_all2 (n := k) p) by exact Hle.
           rewrite <- !app_assoc. reflexivity.
      * cbn [fst snd log room full] in *. rewrite D. cbn [log full].
        destruct (Nat.leb_spec (length p + length (concat ps)) k); [lia|].
        split; [reflexivity|]. split; [|reflexivity].
        rewrite concat_app. cbn [concat]. rewrite app_nil_r.
        rewrite firstn_app.
        replace (k - length p) with 0 by lia.
        rewrite firstn_O, app_nil_r. reflexivity.
    + cbn [fst snd log room full] in *.
      destruct IH as (I1 & I2 & I3). rewrite I1, I2, I3.
      split; [reflexivity|]. split; [|reflexivity].
      rewrite concat_app. cbn [concat]. rewrite app_nil_r.
      rewrite <- !app_assoc. reflexivity.
Qed.

End FeedFacts.

Section EmbedAnyDestination.
Variables IsLetter IsNumber : Z -> bool.
Variable C : Compressor.
Implicit Types (w : World C) (dst : Writer) (p : list byte).

Local Abbreviation main := (Embed_main IsLetter IsNumber C).
Local Abbreviation ident := (identifier IsLetter IsNumber).

(** The digest declaration, from the reading of the digest on. *)
Lemma hash_block_does dst name id w wf : same_out w wf ->
  does dst
       (sum <- (fun w => Some (SHA1.Sum (w_sha1 w), w)) ;;
        err <- Fprintf dst (hash_header name id) ;;
        if negb (is_nil err) then ret err
        else
          err <- sum_loop (length sum) dst sum ;;
          if negb (is_nil err) then ret err
          else Fprintf dst footer)
       (hash_block name id (SHA1.Sum (w_sha1 w))) None w wf.
Proof.
  intros S. set (sum := SHA1.Sum (w_sha1 w)).
  set (ls := map hex_line (chunks ((length sum + 11) / 12) sum)).
  apply (does_from dst _
           (x <- Fprintf dst (hash_header name id) ;;
            if negb (is_nil x) then ret x
            else (fun _ =>
                    y <- sum_loop (length sum) dst sum ;;
                    if negb (is_nil y) then ret y
                    else (fun _ => Fprintf dst footer) y) x)
           _ ([hash_header name id] ++ (ls ++ [footer])) _ None w w wf);
    [reflexivity | reflexivity | reflexivity |].
  apply (does_seq dst (Fprintf dst (hash_header name id)) _
           [hash_header name id] None (ls ++ [footer]) None w wf).
  { apply Fprintf_does, S. }
  intros w1 _ _ _ _.
  apply (does_seq dst (sum_loop (length sum) dst sum)
           (fun _ => Fprintf dst footer) ls None [footer] None w1 w1).
  { apply sum_loop_does; [apply same_out_refl | apply le_n]. }
  intros w2 _ _ _ _. apply Fprintf_does, same_out_refl.
Qed.

(** [Embed_main] in any state: the writes of [Embed] are made until
    one fails, whose error is returned; when none fails the result is nil
    or the error of the source. *)
Lemma Embed_main_does flags d name w :
  d = File \/ d = Gzip ->
  let e := at_end (w_src w) in
  let p := pending (w_src w) in
  let id := ident name in
  let data := data_block name id p in
  does (wrap flags d) (main flags d name)
       (if clean e
        then data ++ (if sha flags
                      then hash_block name id
                             (SHA1.Sum (w_sha1 w ++ concat data))
                      else [])
        else truncated IsLetter IsNumber name p)
       (if clean e then None else Some e) w w.
Proof.
  intros Hd e p id data.
  pose proof (wrap_simple flags d Hd) as Hsimple.
  pose proof (wrap_hashing flags d Hd) as Hhash.
  set (dst := wrap flags d) in *.
  set (header := data_header name id).
  set (ls := map hex_line (chunks (lines_for e (length p)) p)).
  set (tail := if sha flags
               then hash_block name id (SHA1.Sum (w_sha1 w ++ concat data))
               else []).
  set (K3 := fun err : option error =>
               if sha flags
               then (sum <- (fun w => Some (SHA1.Sum (w_sha1 w), w)) ;;
                     err <- Fprintf dst (hash_header name id) ;;
                     if negb (is_nil err) then ret err
                     else
                       err <- sum_loop (length sum) dst sum ;;
                       if negb (is_nil err) then ret err
                       else Fprintf dst footer)
               else (ret err : M C (option error))).
  set (K2 := fun _ : option error =>
               (x <- Fprintf dst footer ;;
                if negb (is_nil x) then ret x else K3 x) : M C (option error)).
  set (K1 := fun (fuel : nat) (_ : option error) =>
               (x <- read_loop fuel dst ;;
                if negb (is_nil x) then ret x else K2 x) : M C (option error)).
  (* after the header *)
  assert (Tail : forall w1,
            Fprintf dst header w = Some (None, w1) ->
            does dst (K1 (S (length p)) None)
                 (match (if clean e then None else Some e) with
                  | None => ls ++ ([footer] ++ tail)
                  | Some _ => ls
                  end)
                 (match (if clean e then None else Some e) with
                  | None => None
                  | Some _ => if clean e then None else Some e
                  end) w1 w1).
  { intros w1 E1.
    pose proof (Fprintf_src C _ _ _ _ _ E1) as Hsrc.
    apply (does_seq dst (read_loop (S (length p)) dst) K2 ls
             (if clean e then None else Some e) ([footer] ++ tail) None w1 w1).
    { apply (does_from dst _ (read_loop (S (length p)) dst) _
               (map hex_line
                  (chunks (lines_for (at_end (w_src w1))
                                     (length (pending (w_src w1))))
                          (pending (w_src w1))))
               _ (if clean (at_end (w_src w1)) then None
                  else Some (at_end (w_src w1))) w1 w1 w1);
        [reflexivity | rewrite Hsrc; reflexivity | rewrite Hsrc; reflexivity |].
      apply read_loop_does; [apply same_out_refl|]. rewrite Hsrc. fold p. lia. }
    intros w2 E2 S2 F2 Hok.
    assert (Hc : clean e = true) by (destruct (clean e); [reflexivity | discriminate Hok]).
    apply (does_seq dst (Fprintf dst footer) K3 [footer] None tail None w2 w2).
    { apply Fprintf_does, same_out_refl. }
    intros w3 E3 _ _ _.
    unfold K3, tail. destruct (sha flags) eqn:Hs; [|apply does_ret, same_out_refl].
    assert (Esum : w_sha1 w3 = w_sha1 w ++ concat data).
    { rewrite (Fprintf_sha1 dst footer w2 w3 Hsimple E3), Hhash.
      destruct S2 as (_ & _ & ->).
      rewrite (feed_sha1 dst ls Hsimple w1 F2), Hhash.
      rewrite (Fprintf_sha1 dst header w w1 Hsimple E1), Hhash.
      unfold data, data_block. cbn [concat]. rewrite concat_app. cbn [concat].
      rewrite app_nil_r, <- !app_assoc. unfold ls, lines_for. rewrite Hc.
      reflexivity. }
    rewrite <- Esum. apply hash_block_does, same_out_refl. }
  apply (does_from dst _
           (x <- Fprintf dst header ;;
            if negb (is_nil x) then ret x else K1 (S (length p)) x)
           _ ([header] ++
              match (if clean e then None else Some e) with
              | None => ls ++ ([footer] ++ tail)
              | Some _ => ls
              end)
           _ (match (if clean e then None else Some e) with
              | None => None
              | Some _ => if clean e then None else Some e
              end) w w w).
  - unfold Embed_main. fold dst. unfold bind at 1. unfold lift.
    rewrite sanitise_identifier. fold id. fold header.
    apply bind_cong. intros x w1 E1.
    destruct x; [reflexivity|]. cbn [is_nil negb].
    unfold K1. unfold bind at 1. cbv beta iota.
    rewrite (Fprintf_src C _ _ _ _ _ E1). reflexivity.
  - unfold data, data_block, truncated, ls, lines_for. fold id. fold header.
    destruct (clean e); [|reflexivity].
    cbn [app]. rewrite <- app_assoc. reflexivity.
  - destruct (clean e); reflexivity.
  - apply (does_seq dst (Fprintf dst header) (K1 (S (length p))) [header] None
             _ _ w w).
    + apply Fprintf_does, same_out_refl.
    + intros w1 E1 _ _ _. apply Tail, E1.
Qed.

End EmbedAnyDestination.

Section EmbedBounded.
Variables IsLetter IsNumber : Z -> bool.
Variable C : Compressor.
Local Abbreviation embed := (Embed IsLetter IsNumber C).

Lemma Close_with_src r (w : World C) :
  gzip.Close (with_src r w)
  = match gzip.Close w with
    | Some (e, w') => Some (e, with_src r w')
    | None => None
    end.
Proof.
  unfold gzip.Close. cbn [with_src w_gz w_dst w_src w_sha1].
  destruct (z_err (w_gz w)); [reflexivity|].
  destruct (z_closed (w_gz w)); [reflexivity|].
  destruct (io.sink_Write (w_dst w) (gz_fin C (z_state (w_gz w))))
    as [[n e] s]. reflexivity.
Qed.

(** X11: without [-gzip], a destination with room for [k] more bytes
    receives the first [k] bytes of the text and nothing else: [Embed]
    returns the error of the destination when the text is longer, and
    otherwise what it returns on a destination without limit; what was
    written stays. *)
Theorem Embed_bounded_file (hash : bool) (name data : list byte) (e : error)
    (g : nat) (s : Sink) :
  exists w',
    embed (mkFlags false hash) name (start C (mkReader data e g) s)
    = Some ((if fits s (length (concat (written IsLetter IsNumber
                                          (mkFlags false hash) name e data)))
             then (if clean e then None else Some e)
             else Some (full s)), w')
    /\ contents (w_dst w')
       = contents s
         ++ taken s (concat (written IsLetter IsNumber (mkFlags false hash)
                               name e data)).
Proof.
  set (w := start C (mkReader data e g) s).
  destruct (Embed_main_does IsLetter IsNumber C (mkFlags false hash) File name w
              (or_introl eq_refl)) as (w' & E & S).
  assert (Hd : direct (wrap (mkFlags false hash) File))
    by (unfold wrap; cbn [sha]; destruct hash; exact I).
  match type of E with
  | _ = Some (outcome (feed _ ?W' _) _, _) => set (W := W') in *
  end.
  assert (EW : W = written IsLetter IsNumber (mkFlags false hash) name e data)
    by reflexivity.
  destruct (feed_direct (wrap (mkFlags false hash) File) W Hd w)
    as (F1 & F2 & _).
  exists w'. unfold Embed. cbn [compress]. rewrite E. rewrite <- EW. split.
  - unfold outcome. rewrite F1. cbn [w w_dst start w_src at_end].
    destruct (fits s (length (concat W))); reflexivity.
  - destruct S as (-> & _ & _). exact F2.
Qed.

(** X12: how the source splits its data into reads makes no
    difference: for two sources that hold the same bytes and end with the
    same error, [Embed] returns the same result and leaves the same
    destination, gzip writer and digest, on any destination and with any
    flags. *)
Theorem Embed_read_sizes (flags : Flags) (name data : list byte) (e : error)
    (g1 g2 : nat) (s : Sink) :
  exists r w1 w2,
    embed flags name (start C (mkReader data e g1) s) = Some (r, w1)
    /\ embed flags name (start C (mkReader data e g2) s) = Some (r, w2)
    /\ w_dst w1 = w_dst w2 /\ w_gz w1 = w_gz w2 /\ w_sha1 w1 = w_sha1 w2.
Proof.
  set (wa := start C (mkReader data e g1) s).
  set (wb := start C (mkReader data e g2) s).
  assert (Sab : same_out wa wb) by (repeat split).
  assert (Main : forall d, d = File \/ d = Gzip ->
            exists r w1 w2,
              Embed_main IsLetter IsNumber C flags d name wa = Some (r, w1)
              /\ Embed_main IsLetter IsNumber C flags d name wb = Some (r, w2)
              /\ same_out w1 w2).
  { intros d Hd.
    destruct (Embed_main_does IsLetter IsNumber C flags d name wa Hd)
      as (w1 & E1 & S1).
    destruct (Embed_main_does IsLetter IsNumber C flags d name wb Hd)
      as (w2 & E2 & S2).
    cbn [wa wb start w_src at_end pending w_sha1] in E1, E2, S1, S2.
    match type of E1 with
    | _ = Some (outcome (feed ?dst ?W' _) _, _) =>
      destruct (feed_same_out dst W' wa wb Sab) as [F1 F2]
    end.
    eexists _, w1, w2. split; [exact E1|]. split.
    - rewrite E2. unfold outcome. fold wa wb. rewrite F1. reflexivity.
    - apply (same_out_trans _ _ _ S1).
      apply (same_out_trans _ _ _ F2). apply same_out_sym, S2. }
  unfold Embed. destruct (compress flags).
  - change (gzip.NewWriterLevel gzip.BestCompression) with (@None error).
    destruct (Main Gzip (or_intror eq_refl)) as (r & w1 & w2 & E1 & E2 & S).
    unfold bind. rewrite E1, E2.
    rewrite (same_out_with_src w1 w2 S), Close_with_src.
    destruct (Close_counts C w2) as (ec & w2' & Ec & _). rewrite Ec.
    unfold ret. eexists _, _, _. split; [reflexivity|].
    split; [reflexivity|]. repeat split.
  - destruct (Main File (or_introl eq_refl)) as (r & w1 & w2 & E1 & E2 & S).
    exists r, w1, w2. split; [exact E1|]. split; [exact E2|]. exact S.
Qed.

End EmbedBounded.

Section Unbounded.
Variables IsLetter IsNumber : Z -> bool.
Variable C : Compressor.
Implicit Types (w : World C) (dst : Writer) (p : list byte).
Local Abbreviation embed := (Embed IsLetter IsNumber C).

Lemma sink_Write_room s p :
  room s = None -> room (snd (io.sink_Write s p)) = None.
Proof. unfold io.sink_Write. intros ->. reflexivity. Qed.

Lemma Write_room dst p : forall w r w',
  room (w_dst w) = None -> Write dst p w = Some (r, w') ->
  room (w_dst w') = None.
Proof.
  induction dst as [| |d IH]; intros w r w' H.
  - cbn [Write]. pose proof (sink_Write_room (w_dst w) p H) as R.
    destruct (io.sink_Write (w_dst w) p) as [[n e] s]. intros [= _ <-].
    exact R.
  - cbn [Write]. unfold gzip.Write. destruct (z_err (w_gz w)).
    + intros [= _ <-]. exact H.
    + destruct (gz_step C (z_state (w_gz w)) p) as [st out].
      destruct out as [|b out]; [intros [= _ <-]; exact H|].
      pose proof (sink_Write_room (w_dst w) (b :: out) H) as R.
      destruct (io.sink_Write (w_dst w) (b :: out)) as [[n e] s].
      intros [= _ <-]. exact R.
  - cbn [Write]. unfold bind.
    destruct (Write d p w) as [[[n e] w1]|] eqn:E; [|discriminate].
    pose proof (IH w _ w1 H E) as R.
    destruct (negb (is_nil e)); [intros [= _ <-]; exact R|].
    destruct (negb (n =? length p)); intros [= _ <-]; exact R.
Qed.

Lemma feed_room dst ps : forall w,
  room (w_dst w) = None -> room (w_dst (snd (feed dst ps w))) = None.
Proof.
  induction ps as [|p ps IH]; intros w H; [exact H|].
  cbn [feed]. unfold Fprintf, bind.
  destruct (Write dst p w) as [[[n e] w1]|] eqn:E; [|exact H].
  pose proof (Write_room dst p w _ w1 H E) as R. cbn [ret snd].
  destruct e; [exact R | apply IH, R].
Qed.

Lemma Close_room w e w' :
  room (w_dst w) = None -> gzip.Close w = Some (e, w') ->
  room (w_dst w') = None.
Proof.
  intros H. unfold gzip.Close. destruct (z_err (w_gz w)).
  - intros [= _ <-]. exact H.
  - destruct (z_closed (w_gz w)); [intros [= _ <-]; exact H|].
    pose proof (sink_Write_room (w_dst w) (gz_fin C (z_state (w_gz w))) H) as R.
    destruct (io.sink_Write (w_dst w) (gz_fin C (z_state (w_gz w))))
      as [[n x] s]. intros [= _ <-]. exact R.
Qed.

Lemma Embed_room flags name w r w' :
  room (w_dst w) = None -> embed flags name w = Some (r, w') ->
  room (w_dst w') = None.
Proof.
  intros H. unfold Embed. destruct (compress flags).
  - change (gzip.NewWriterLevel gzip.BestCompression) with (@None error).
    destruct (Embed_main_does IsLetter IsNumber C flags Gzip name w
                (or_intror eq_refl)) as (w1 & E1 & S1 & _).
    unfold bind. rewrite E1.
    destruct (gzip.Close w1) as [[x w2]|] eqn:Ec; [|discriminate].
    intros [= _ <-]. apply (Close_room w1 x w2); [|exact Ec].
    rewrite S1. apply feed_room, H.
  - destruct (Embed_main_does IsLetter IsNumber C flags File name w
                (or_introl eq_refl)) as (w1 & E1 & S1 & _).
    rewrite E1. intros [= _ <-]. rewrite S1. apply feed_room, H.
Qed.

(** [Embed] on a file that accepts everything appends to it and leaves
    it so. *)
Lemma Embed_unbounded flags name data e g (s : Sink) :
  room s = None ->
  exists w',
    embed flags name (start C (mkReader data e g) s)
    = Some ((if clean e then None else Some e), w')
    /\ contents (w_dst w')
       = contents s ++ appended IsLetter IsNumber C flags name e data
    /\ room (w_dst w') = None.
Proof.
  destruct s as [l0 r f]. cbn [room]. intros ->.
  destruct flags as [gz hash]. unfold appended. cbn [compress]. destruct gz.
  - destruct (Embed_gzip IsLetter IsNumber C hash name data e g l0 f)
      as (w' & E & _ & D & _).
    exists w'. split; [exact E|]. split; [exact D|].
    apply (Embed_room _ _ _ _ _ (eq_refl : room (w_dst (start C (mkReader data e g) (mkSink l0 None f))) = None) E).
  - destruct (Embed_plain IsLetter IsNumber C hash name data e g l0 f)
      as (w' & E & L & _).
    exists w'. split; [exact E|]. split.
    + unfold contents. rewrite L, concat_app. reflexivity.
    + apply (Embed_room _ _ _ _ _ (eq_refl : room (w_dst (start C (mkReader data e g) (mkSink l0 None f))) = None) E).
Qed.

(** X13: the calls of [main] with [-o] for two inputs: [WritePackage]
    and then [Embed] for each, on the same file.  The file holds the
    package clause, then what [Embed] appends for the first input, then
    what it appends for the second; with [-gzip] each input gives a
    compressed stream of its own after the clause. *)
Theorem package_then_embeds (flags : Flags) (pkg name1 data1 name2 data2 : list byte)
    (g1 g2 : nat) (src0 : Reader) (f : error) :
  exists w0 w1 w2,
    WritePackage File pkg (start C src0 (mkSink [] None f)) = Some (None, w0)
    /\ embed flags name1 (start C (mkReader data1 EOF g1) (w_dst w0))
       = Some (None, w1)
    /\ embed flags name2 (start C (mkReader data2 EOF g2) (w_dst w1))
       = Some (None, w2)
    /\ contents (w_dst w2)
       = (str "// MACHINE GENERATED - DO NOT EDIT //" ++ NL ++ NL
            ++ str "package " ++ pkg ++ NL)
         ++ appended IsLetter IsNumber C flags name1 EOF data1
         ++ appended IsLetter IsNumber C flags name2 EOF data2.
Proof.
  unfold WritePackage.
  set (clause := str "// MACHINE GENERATED - DO NOT EDIT //" ++ NL ++ NL
                 ++ str "package " ++ pkg ++ NL).
  eexists.
  assert (E0 : Fprintf File clause (start C src0 (mkSink [] None f))
               = Some (None, mkWorld src0 (mkSink [clause] None f)
                               (w_gz (start C src0 (mkSink [] None f))) []))
    by reflexivity.
  rewrite E0. cbn [w_dst].
  destruct (Embed_unbounded flags name1 data1 EOF g1 (mkSink [clause] None f)
              eq_refl) as (w1 & E1 & D1 & R1).
  destruct (Embed_unbounded flags name2 data2 EOF g2 (w_dst w1) R1)
    as (w2 & E2 & D2 & _).
  exists w1, w2. split; [reflexivity|]. split; [exact E1|]. split; [exact E2|].
  rewrite D2, D1. unfold contents at 1. cbn [log concat].
  rewrite app_nil_r, <- !app_assoc. reflexivity.
Qed.

End Unbounded.

Section OutputName.
Import filepath separator_facts.

Lemma no_separator_app a b :
  no_separator (a ++ b) = no_separator a && no_separator b.
Proof. apply forallb_app. Qed.

(** What follows the last separator holds none. *)
Lemma after_last_separator_spec path : forall n, n <= length path ->
  match after_last_separator n path with
  | Some i => i <= n /\ no_separator (skipn i (firstn n path)) = true
  | None => no_separator (firstn n path) = true
  end.
Proof.
  induction n as [|n IH]; intros Hn; [reflexivity|].
  cbn [after_last_separator].
  destruct (IsPathSeparator (nth n path x00)) eqn:E.
  - split; [apply le_n|]. rewrite skipn_all2; [reflexivity|].
    rewrite length_firstn. lia.
  - specialize (IH ltac:(lia)).
    rewrite (firstn_snoc x00) by lia.
    destruct (after_last_separator n path) as [i|].
    + destruct IH as [Hi IH]. split; [lia|].
      rewrite skipn_app, length_firstn, Nat.min_l by lia.
      replace (i - n) with 0 by lia. rewrite skipn_O, no_separator_app, IH.
      unfold no_separator. cbn [forallb]. rewrite E. reflexivity.
    + rewrite no_separator_app, IH.
      unfold no_separator. cbn [forallb]. rewrite E. reflexivity.
Qed.

(** The base name is a single separator or holds none. *)
Lemma Base_no_separator path :
  Base path = [Separator] \/ no_separator (Base path) = true.
Proof.
  destruct path as [|b t]; [right; reflexivity|].
  rewrite Base_cons by discriminate. cbv zeta.
  set (p := firstn _ (b :: t)).
  pose proof (after_last_separator_spec p (length p) (le_n _)) as H.
  rewrite firstn_all in H.
  destruct (after_last_separator (length p) p) as [i|].
  - destruct H as [_ H]. destruct (skipn i p); [left | right]; [reflexivity | exact H].
  - destruct p; [left | right]; [reflexivity | exact H].
Qed.

(** X14: without [-o] the output file is created in the current
    directory, whatever directory the input is in: its name, the base name
    of the input followed by [.go], holds no slash; the one exception is an
    input path whose base name is the slash itself, for which the name is
    [/.go]. *)
Theorem output_name_no_directory (name : list byte) :
  (filepath.Base name = [Separator] /\ output_name name = str "/.go")
  \/ no_separator (output_name name) = true.
Proof.
  unfold output_name. destruct (Base_no_separator name) as [E | H].
  - left. split; [exact E|]. rewrite E. reflexivity.
  - right. rewrite no_separator_app, H. reflexivity.
Qed.

End OutputName.
